(** * Session process engine of claude-code-manager

    A shallow embedding of [server/lib/claude.ts] (class
    [ClaudeProcessManager]) together with the properties its design
    document states about it.

    - JavaScript strings are sequences of UTF-16 code units; they are
      modelled as lists of numbers so that [trim], [split], the ANSI
      clean-up regular expression and [JSON.parse] can be written out
      the way the engine evaluates them.
    - The manager is a state: the [ProcessInfo] objects (shared by
      reference between the registry and the callbacks of the
      pseudo-terminals), the registry, the pseudo-terminals, and the
      trace of what the engine did (events emitted, [ptySpawn] and
      [kill] calls).  Methods and callbacks are state transformers.
    - Each method call and each callback runs to completion before the
      next one starts, as JavaScript does; a run is a list of inputs.
    - [nanoid()], [new Date()], the environment and the string
      conversions of the language are supplied by a [Runtime].
    - Console logging is left out; the listeners of the events are
      outside the engine and see each event when it is emitted. *)

From stdpp Require Import base option list numbers.
From Stdlib Require String Ascii.
Import String.StringSyntax.

Local Open Scope N_scope.

(** ** JavaScript strings *)

Module JsString.

Import String Ascii.

Definition char16 := N.
Definition jsstring := list char16.

(** A source literal (ASCII only). *)
Definition lit (s : String.string) : jsstring :=
  List.map Ascii.N_of_ascii (String.list_ascii_of_string s).
Global Arguments lit s%_string : simpl never.

(** A source literal in which ['] stands for the double quote, used for
    JSON texts. *)
Definition dq (s : String.string) : jsstring :=
  List.map (fun c => if c =? 39 then 34 else c) (lit s).
Global Arguments dq s%_string : simpl never.

Definition ESC : char16 := 27.
Definition LF : char16 := 10.

(** [WhiteSpace] and [LineTerminator] code units, the ones
    [String.prototype.trim] removes. *)
Definition is_space (c : char16) : bool :=
  ((9 <=? c) && (c <=? 13)) || (c =? 32) || (c =? 160) || (c =? 5760)
  || ((8192 <=? c) && (c <=? 8202)) || (c =? 8232) || (c =? 8233)
  || (c =? 8239) || (c =? 8287) || (c =? 12288) || (c =? 65279).

Fixpoint trimStart (s : jsstring) : jsstring :=
  match s with
  | c :: rest => if is_space c then trimStart rest else s
  | [] => []
  end.

Definition trimEnd (s : jsstring) : jsstring :=
  rev (trimStart (rev s)).

(** [s.trim()] *)
Definition trim (s : jsstring) : jsstring := trimEnd (trimStart s).

(** [s.split("\n")]: always at least one piece. *)
Fixpoint split_lines (s : jsstring) : list jsstring :=
  match s with
  | [] => [[]]
  | c :: rest =>
      if c =? LF then [] :: split_lines rest
      else match split_lines rest with
           | piece :: pieces => (c :: piece) :: pieces
           | [] => [[c]]
           end
  end.

(** JavaScript truthiness of a string, as used by [||] and [if]. *)
Definition nonempty (s : jsstring) : bool :=
  match s with [] => false | _ => true end.

(** *** The clean-up pattern [/\x1b\[[0-9;]*m/g]

    [is_param] is the class [[0-9;]].  A match starts at an ESC that is
    followed by '[', a maximal run of parameter characters, and the
    letter 'm'; since 'm' is not a parameter character, backtracking
    into the run never finds another match. *)
Definition is_param (c : char16) : bool :=
  ((48 <=? c) && (c <=? 57)) || (c =? 59).

(** Number of code units of [[0-9;]*m] at the head of [s], if it is
    there. *)
Fixpoint params_m_length (s : jsstring) : option nat :=
  match s with
  | c :: rest =>
      if c =? 109 then Some 1%nat
      else if is_param c then S <$> params_m_length rest
      else None
  | [] => None
  end.

(** Number of code units of [\[[0-9;]*m] at the head of [s]. *)
Definition sgr_tail_length (s : jsstring) : option nat :=
  match s with
  | c :: rest => if c =? 91 then S <$> params_m_length rest else None
  | [] => None
  end.

(** [s.replace(/\x1b\[[0-9;]*m/g, EMPTY)] with the empty string for
    [EMPTY], scanning left to right;
    [skip] counts the code units of the current match that are still
    to be dropped. *)
Fixpoint replace_sgr (skip : nat) (s : jsstring) : jsstring :=
  match s with
  | [] => []
  | c :: rest =>
      match skip with
      | S k => replace_sgr k rest
      | O =>
          if c =? ESC then
            match sgr_tail_length rest with
            | Some n => replace_sgr n rest
            | None => c :: replace_sgr 0 rest
            end
          else c :: replace_sgr 0 rest
      end
  end.

Definition strip_ansi (s : jsstring) : jsstring := replace_sgr 0 s.

End JsString.

Export JsString.

(** ** The line parser of the [onData] handler

    [info.buffer += data; lines = info.buffer.split(LF);
     info.buffer = lines.pop() || EMPTY] *)

Module LineParser.

(** [lines.pop() || EMPTY], with the empty string for [EMPTY]: the
    pieces without the last one, and the last one. *)
Definition pop_or_empty (pieces : list jsstring) : list jsstring * jsstring :=
  (List.removelast pieces,
   let popped := List.last pieces [] in
   if nonempty popped then popped else []).

(** One [onData] call: the complete lines and the new buffer. *)
Definition feed (buffer data : jsstring) : list jsstring * jsstring :=
  pop_or_empty (split_lines (buffer ++ data)).

(** Chunks fed one at a time: all complete lines in order, and the
    buffer left at the end. *)
Fixpoint feed_all (buffer : jsstring) (chunks : list jsstring)
  : list jsstring * jsstring :=
  match chunks with
  | [] => ([], buffer)
  | data :: more =>
      let '(lines, buffer') := feed buffer data in
      let '(lines', buffer'') := feed_all buffer' more in
      (lines ++ lines', buffer'')
  end.

(** The cleaning step applied to a line before it is classified:
    [line.trim().replace(/\x1b\[[0-9;]*m/g, EMPTY)]. *)
Definition clean (line : jsstring) : jsstring := strip_ansi (trim line).

End LineParser.

Export LineParser.

(** ** JSON values and [JSON.parse]

    The engine decodes every cleaned line with [JSON.parse] and then
    reads properties of the result.  The grammar below is the one of
    ECMA-404, which [JSON.parse] follows. *)

Module Json.

(** A JSON number keeps its exact decimal value
    [(-1)^neg * mant * 10^exp10]; the only thing the engine asks of a
    number is whether it is truthy. *)
Record number := { neg : bool; mant : N; exp10 : Z }.

#[warnings="-register-all"]
Inductive json :=
| JNull
| JBool (b : bool)
| JNum (n : number)
| JStr (s : jsstring)
| JArr (elements : list json)
| JObj (members : list (jsstring * json)).

(** *** Lexical helpers *)

Definition is_json_ws (c : char16) : bool :=
  (c =? 32) || (c =? 9) || (c =? 10) || (c =? 13).

Fixpoint skip_ws (s : jsstring) : jsstring :=
  match s with
  | c :: rest => if is_json_ws c then skip_ws rest else s
  | [] => []
  end.

Definition is_digit (c : char16) : bool := (48 <=? c) && (c <=? 57).

Definition hex_value (c : char16) : option N :=
  if is_digit c then Some (c - 48)
  else if (97 <=? c) && (c <=? 102) then Some (c - 87)
  else if (65 <=? c) && (c <=? 70) then Some (c - 55)
  else None.

Fixpoint strip_prefix (p s : jsstring) : option jsstring :=
  match p, s with
  | [], _ => Some s
  | a :: p', b :: s' => if a =? b then strip_prefix p' s' else None
  | _ :: _, [] => None
  end.

(** Reads a maximal run of decimal digits: the number read so far, how
    many digits were read, and what follows. *)
Fixpoint take_digits (acc : N) (count : nat) (s : jsstring)
  : N * nat * jsstring :=
  match s with
  | c :: rest =>
      if is_digit c then take_digits (acc * 10 + (c - 48)) (S count) rest
      else (acc, count, s)
  | [] => (acc, count, [])
  end.

(** *** Numbers: an optional minus sign, an integer part without
    leading zeros, an optional fraction and an optional exponent *)

Definition parse_int_part (s : jsstring) : option (N * jsstring) :=
  match s with
  | c :: rest =>
      if c =? 48 then Some (0, rest)
      else if is_digit c then
        let '(n, _, rest') := take_digits 0 0 s in Some (n, rest')
      else None
  | [] => None
  end.

Definition parse_frac_part (int : N) (s : jsstring)
  : option (N * nat * jsstring) :=
  match s with
  | c :: rest =>
      if c =? 46 then
        match take_digits int 0 rest with
        | (_, O, _) => None
        | (n, k, rest') => Some (n, k, rest')
        end
      else Some (int, O, s)
  | [] => Some (int, O, [])
  end.

Definition parse_exp_part (s : jsstring) : option (Z * jsstring) :=
  match s with
  | c :: rest =>
      if (c =? 101) || (c =? 69) then
        let '(negative, digits) :=
          match rest with
          | sign :: rest' =>
              if sign =? 45 then (true, rest')
              else if sign =? 43 then (false, rest')
              else (false, rest)
          | [] => (false, [])
          end in
        match take_digits 0 0 digits with
        | (_, O, _) => None
        | (e, _, rest') =>
            Some (if negative then (- Z.of_N e)%Z else Z.of_N e, rest')
        end
      else Some (0%Z, s)
  | [] => Some (0%Z, [])
  end.

Definition parse_number (s : jsstring) : option (number * jsstring) :=
  let '(negative, s1) :=
    match s with
    | c :: rest => if c =? 45 then (true, rest) else (false, s)
    | [] => (false, [])
    end in
  '(int, s2) ← parse_int_part s1;
  '(m, k, s3) ← parse_frac_part int s2;
  '(e, s4) ← parse_exp_part s3;
  Some ({| neg := negative; mant := m; exp10 := (e - Z.of_nat k)%Z |}, s4).

(** *** Strings: the body after the opening quote *)

Definition simple_escape (c : char16) : option char16 :=
  if c =? 34 then Some 34          (* quote *)
  else if c =? 92 then Some 92     (* backslash *)
  else if c =? 47 then Some 47     (* slash *)
  else if c =? 98 then Some 8      (* b: backspace *)
  else if c =? 102 then Some 12    (* f: form feed *)
  else if c =? 110 then Some 10    (* n: line feed *)
  else if c =? 114 then Some 13    (* r: carriage return *)
  else if c =? 116 then Some 9     (* t: tab *)
  else None.

Definition hex4 (a b c d : char16) : option char16 :=
  x3 ← hex_value a; x2 ← hex_value b; x1 ← hex_value c; x0 ← hex_value d;
  Some (((x3 * 16 + x2) * 16 + x1) * 16 + x0).

Fixpoint parse_string_body (s : jsstring) : option (jsstring * jsstring) :=
  match s with
  | [] => None
  | c :: rest =>
      if c =? 34 then Some ([], rest)
      else if c =? 92 then
        match rest with
        | [] => None
        | e :: rest1 =>
            if e =? 117 then
              match rest1 with
              | a :: b :: c' :: d :: rest2 =>
                  u ← hex4 a b c' d;
                  '(body, after) ← parse_string_body rest2;
                  Some (u :: body, after)
              | _ => None
              end
            else
              u ← simple_escape e;
              '(body, after) ← parse_string_body rest1;
              Some (u :: body, after)
        end
      else if c <? 32 then None
      else
        '(body, after) ← parse_string_body rest;
        Some (c :: body, after)
  end.

(** *** Values

    The recursion is bounded by a fuel.  Every nested call is made
    after at least one code unit has been consumed, so the fuel
    [JSON_parse] gives, above twice the length of the text, is never
    exhausted (lemma [JSON_parse_any_fuel]). *)
Fixpoint parse_value (fuel : nat) (s : jsstring) : option (json * jsstring) :=
  match fuel with
  | O => None
  | S fuel' =>
      match skip_ws s with
      | [] => None
      | c :: rest =>
          if c =? 123 then                         (* { *)
            match skip_ws rest with
            | c' :: rest' =>
                if c' =? 125 then Some (JObj [], rest')
                else parse_members fuel' rest []
            | [] => None
            end
          else if c =? 91 then                     (* [ *)
            match skip_ws rest with
            | c' :: rest' =>
                if c' =? 93 then Some (JArr [], rest')
                else parse_elements fuel' rest []
            | [] => None
            end
          else if c =? 34 then
            '(str, after) ← parse_string_body rest; Some (JStr str, after)
          else if c =? 116 then
            after ← strip_prefix (lit "rue") rest; Some (JBool true, after)
          else if c =? 102 then
            after ← strip_prefix (lit "alse") rest; Some (JBool false, after)
          else if c =? 110 then
            after ← strip_prefix (lit "ull") rest; Some (JNull, after)
          else
            '(n, after) ← parse_number (c :: rest); Some (JNum n, after)
      end
  end
with parse_elements (fuel : nat) (s : jsstring) (acc : list json)
  : option (json * jsstring) :=
  match fuel with
  | O => None
  | S fuel' =>
      '(v, after) ← parse_value fuel' s;
      match skip_ws after with
      | c :: rest =>
          if c =? 44 then parse_elements fuel' rest (v :: acc)
          else if c =? 93 then Some (JArr (rev (v :: acc)), rest)
          else None
      | [] => None
      end
  end
with parse_members (fuel : nat) (s : jsstring) (acc : list (jsstring * json))
  : option (json * jsstring) :=
  match fuel with
  | O => None
  | S fuel' =>
      match skip_ws s with
      | c :: rest =>
          if c =? 34 then
            '(key, after_key) ← parse_string_body rest;
            match skip_ws after_key with
            | colon :: after_colon =>
                if colon =? 58 then
                  '(v, after) ← parse_value fuel' after_colon;
                  match skip_ws after with
                  | c' :: rest' =>
                      if c' =? 44 then
                        parse_members fuel' rest' ((key, v) :: acc)
                      else if c' =? 125 then
                        Some (JObj (rev ((key, v) :: acc)), rest')
                      else None
                  | [] => None
                  end
                else None
            | [] => None
            end
          else None
      | [] => None
      end
  end.

(** [JSON.parse(text)]; [None] stands for the [SyntaxError] it throws. *)
Definition JSON_parse (text : jsstring) : option json :=
  '(v, after) ← parse_value (2 * length text + 2) text;
  match skip_ws after with
  | [] => Some v
  | _ :: _ => None
  end.

(** *** Reading the decoded value *)

(** A decimal literal denotes the double [0] when it is zero or when
    it is at most [2^-1075] in magnitude (round to nearest, ties to
    even). *)
Definition number_is_zero (n : number) : bool :=
  if mant n =? 0 then true
  else if (0 <=? exp10 n)%Z then false
  else mant n * 2 ^ 1075 <=? 10 ^ Z.to_N (- exp10 n).

(** [ToBoolean] *)
Definition truthy (v : json) : bool :=
  match v with
  | JNull => false
  | JBool b => b
  | JNum n => negb (number_is_zero n)
  | JStr s => nonempty s
  | JArr _ | JObj _ => true
  end.

(** The value of the last member named [key]: on duplicate names
    [JSON.parse] keeps the last one. *)
Fixpoint last_member (key : jsstring) (members : list (jsstring * json))
    (found : option json) : option json :=
  match members with
  | [] => found
  | (k, v) :: rest =>
      last_member key rest (if bool_decide (k = key) then Some v else found)
  end.

(** [event.key] for a decoded value other than [null]; [None] is
    [undefined].  The names the engine reads ([type], [subtype],
    [content], [tool_name], [tool_input], [result], [error]) are not
    defined on any prototype, so only own members of objects answer. *)
Definition get_prop (event : json) (key : jsstring) : option json :=
  match event with
  | JObj members => last_member key members None
  | _ => None
  end.

(** [v === "literal"] *)
Definition is_string (v : option json) (literal : jsstring) : bool :=
  match v with
  | Some (JStr s) => bool_decide (s = literal)
  | _ => false
  end.

(** [v || fallback] *)
Definition or_else (v : option json) (fallback : json) : json :=
  match v with
  | Some x => if truthy x then x else fallback
  | None => fallback
  end.

End Json.

Export Json.

(** ** Data model ([shared/types.ts], as the engine uses it) *)

Module Types.

Inductive SessionStatus := Idle | Active | Stopped | Error.
Inductive Role := User | Assistant | System.
Inductive MessageType := Text | ToolUse | ToolResult | ErrorType.

Record Session := {
  s_id : jsstring;
  s_worktreeId : jsstring;
  s_worktreePath : jsstring;
  s_status : SessionStatus;
  s_createdAt : Z;
}.

(** [content] is whatever JavaScript value the engine puts there: a
    string in most cases, the decoded member itself for [x || default]. *)
Record Message := {
  m_id : jsstring;
  m_sessionId : jsstring;
  m_role : Role;
  m_content : json;
  m_timestamp : Z;
  m_type : MessageType;
}.

(** What the engine publishes with [this.emit(name, payload)].  A
    session payload is the session as its listeners see it when the
    event is emitted. *)
Inductive Event :=
| session_created (s : Session)
| session_updated (s : Session)
| session_stopped (sessionId : jsstring)
| message_received (m : Message)
| message_stream (sessionId : jsstring) (chunk : json) (type : MessageType)
| message_complete (sessionId messageId : jsstring).

Definition with_status (st : SessionStatus) (s : Session) : Session :=
  {| s_id := s_id s; s_worktreeId := s_worktreeId s;
     s_worktreePath := s_worktreePath s; s_status := st;
     s_createdAt := s_createdAt s |}.

End Types.

Export Types.

(** ** The world the engine runs in *)

Module World.

(** The [ProcessInfo] objects; [process] refers to a pseudo-terminal by
    its index in [ptys]. *)
Record ProcessInfo := {
  process : option nat;
  session : Session;
  buffer : jsstring;
}.

(** The arguments of one [ptySpawn] call. *)
Record SpawnRequest := {
  sp_file : jsstring;
  sp_args : list jsstring;
  sp_name : jsstring;
  sp_cols : N;
  sp_rows : N;
  sp_cwd : jsstring;
  sp_env : list (jsstring * jsstring);
}.

(** How a [ptySpawn] call ends: with a pseudo-terminal, or by throwing
    a value whose rendering in a template literal is [thrown]. *)
Inductive SpawnOutcome :=
| Spawned
| SpawnThrows (thrown : jsstring).

(** A spawned pseudo-terminal.  Its [onData] and [onExit] callbacks are
    closures over the [sessionId] and the [info] object of the
    [sendMessage] call that spawned it. *)
Record Pty := {
  pty_sessionId : jsstring;
  pty_info : nat;
  pty_killed : bool;
  pty_exit : option Z;
}.

Definition mark_killed (p : Pty) : Pty :=
  {| pty_sessionId := pty_sessionId p; pty_info := pty_info p;
     pty_killed := true; pty_exit := pty_exit p |}.

Definition mark_exited (exitCode : Z) (p : Pty) : Pty :=
  {| pty_sessionId := pty_sessionId p; pty_info := pty_info p;
     pty_killed := pty_killed p; pty_exit := Some exitCode |}.

(** Effects in the order the engine performs them. *)
Inductive Action :=
| Emit (e : Event)
| PtySpawn (request : SpawnRequest) (outcome : SpawnOutcome)
| PtyKill (pid : nat).

(** The state of a [ClaudeProcessManager] and of what it has created.
    - [heap]: the [ProcessInfo] objects allocated so far; an object is
      known by its index, so that the registry and the callbacks of a
      pseudo-terminal share it;
    - [processes]: the [Map<string, ProcessInfo>], in insertion order;
    - [ptys]: the pseudo-terminals spawned so far;
    - [ids], [dates]: how many times [nanoid()] and [new Date()] were
      evaluated;
    - [trace]: the effects so far. *)
Record Manager := {
  heap : list ProcessInfo;
  processes : list (jsstring * nat);
  ptys : list Pty;
  ids : nat;
  dates : nat;
  trace : list Action;
}.

Definition empty_manager : Manager :=
  {| heap := []; processes := []; ptys := []; ids := 0; dates := 0;
     trace := [] |}.

(** What the run-time system supplies: the identifiers [nanoid()]
    returns and the instants [new Date()] reads, one per call; the
    environment [process.env], a map from names to strings whose order
    carries no meaning; the string conversion of a
    template literal and [JSON.stringify(v, null, 2)], both applied to
    a decoded member or to [undefined] ([None]).  The conversion of an
    object or of an array can throw a [TypeError] (a decoded object
    with a member named [toString] has no callable conversion method
    left): [ToString] then gives [None].  [JSON.stringify] does not
    throw on a decoded value; its [None] is the result [undefined]. *)
Record Runtime := {
  nanoid_nth : nat -> jsstring;
  date_nth : nat -> Z;
  process_env : list (jsstring * jsstring);
  ToString : option json -> option jsstring;
  JSON_stringify : option json -> option jsstring;
}.

(** *** [Map] operations on the registry *)

Definition Map_get {V} (m : list (jsstring * V)) (key : jsstring) : option V :=
  snd <$> List.find (fun entry => bool_decide (entry.1 = key)) m.

Fixpoint Map_set {V} (key : jsstring) (v : V) (m : list (jsstring * V))
  : list (jsstring * V) :=
  match m with
  | [] => [(key, v)]
  | entry :: rest =>
      if bool_decide (entry.1 = key) then (key, v) :: rest
      else entry :: Map_set key v rest
  end.

Definition Map_delete {V} (key : jsstring) (m : list (jsstring * V))
  : list (jsstring * V) :=
  List.filter (fun entry => negb (bool_decide (entry.1 = key))) m.

Definition Map_keys {V} (m : list (jsstring * V)) : list jsstring := m.*1.
Definition Map_values {V} (m : list (jsstring * V)) : list V := m.*2.

(** *** State transformers *)

Definition M (A : Type) : Type := Manager -> A * Manager.

Definition ret {A} (a : A) : M A := fun st => (a, st).
Definition bind {A B} (m : M A) (k : A -> M B) : M B :=
  fun st => let '(a, st') := m st in k a st'.

(** The state a computation leaves and the value it returns. *)
Definition exec {A} (m : M A) (st : Manager) : Manager := (m st).2.
Definition eval {A} (m : M A) (st : Manager) : A := (m st).1.

Definition set_heap (h : list ProcessInfo) (st : Manager) : Manager :=
  {| heap := h; processes := processes st; ptys := ptys st; ids := ids st;
     dates := dates st; trace := trace st |}.
Definition set_processes (p : list (jsstring * nat)) (st : Manager) : Manager :=
  {| heap := heap st; processes := p; ptys := ptys st; ids := ids st;
     dates := dates st; trace := trace st |}.
Definition set_ptys (p : list Pty) (st : Manager) : Manager :=
  {| heap := heap st; processes := processes st; ptys := p; ids := ids st;
     dates := dates st; trace := trace st |}.
Definition set_ids (n : nat) (st : Manager) : Manager :=
  {| heap := heap st; processes := processes st; ptys := ptys st; ids := n;
     dates := dates st; trace := trace st |}.
Definition set_dates (n : nat) (st : Manager) : Manager :=
  {| heap := heap st; processes := processes st; ptys := ptys st;
     ids := ids st; dates := n; trace := trace st |}.
Definition set_trace (t : list Action) (st : Manager) : Manager :=
  {| heap := heap st; processes := processes st; ptys := ptys st;
     ids := ids st; dates := dates st; trace := t |}.

Definition do_action (a : Action) : M unit :=
  fun st => (tt, set_trace (trace st ++ [a]) st).

(** [this.emit(name, payload)] *)
Definition emit (e : Event) : M unit := do_action (Emit e).

(** Reading and writing the object [info]. *)
Definition read_info (info : nat) : M (option ProcessInfo) :=
  fun st => (heap st !! info, st).

Definition update_info (info : nat) (f : ProcessInfo -> ProcessInfo) : M unit :=
  fun st => (tt, set_heap (alter f info (heap st)) st).

Definition set_status (v : SessionStatus) (i : ProcessInfo) : ProcessInfo :=
  {| process := process i; session := with_status v (session i);
     buffer := buffer i |}.
Definition set_process (v : option nat) (i : ProcessInfo) : ProcessInfo :=
  {| process := v; session := session i; buffer := buffer i |}.
Definition set_buffer (v : jsstring) (i : ProcessInfo) : ProcessInfo :=
  {| process := process i; session := session i; buffer := v |}.

(** [this.processes.get(sessionId)]: the object, by reference. *)
Definition processes_get (sessionId : jsstring) : M (option nat) :=
  fun st => (Map_get (processes st) sessionId, st).

Fixpoint for_each {A} (l : list A) (body : A -> M unit) : M unit :=
  match l with
  | [] => ret tt
  | a :: rest => bind (body a) (fun _ => for_each rest body)
  end.

End World.

Export World.

Declare Scope engine_scope.
Delimit Scope engine_scope with engine.
Notation "'let*' x ':=' m 'in' k" := (bind m (fun x => k))
  (at level 10, x pattern, m at level 100, k at level 200) : engine_scope.
Notation "m ';;' k" := (bind m (fun _ => k))
  (at level 100, k at level 200, right associativity) : engine_scope.

(** ** [ClaudeProcessManager] *)

Module Engine.

Local Open Scope engine_scope.

Section WithRuntime.

Variable rt : Runtime.

(** [nanoid()] *)
Definition nanoid : M jsstring :=
  fun st => (nanoid_nth rt (ids st), set_ids (S (ids st)) st).

(** [new Date()] *)
Definition new_Date : M Z :=
  fun st => (date_nth rt (dates st), set_dates (S (dates st)) st).

(** [startSession(worktreeId, worktreePath)] *)
Definition startSession (worktreeId worktreePath : jsstring) : M Session :=
  let* sessionId := nanoid in
  let* createdAt := new_Date in
  let session :=
    {| s_id := sessionId; s_worktreeId := worktreeId;
       s_worktreePath := worktreePath; s_status := Idle;
       s_createdAt := createdAt |} in
  let* info := (fun st =>
    (length (heap st),
     set_heap (heap st ++ [{| process := None; session := session;
                              buffer := [] |}]) st)) in
  (fun st => (tt, set_processes (Map_set sessionId info (processes st)) st));;
  emit (session_created session);;
  ret session.

(** [processStreamEvent(sessionId, line)].  The [catch] branch is
    reached when [JSON.parse] throws, when reading [event.type] throws,
    which it does for the decoded value [null], and when the string
    conversion of [event.tool_name] in the template literal throws:
    [nanoid()] has then been called already, [new Date()] not yet. *)
Definition non_json_line (sessionId line : jsstring) : M unit :=
  emit (message_stream sessionId (JStr line) Text).

Definition processStreamEvent (sessionId line : jsstring) : M unit :=
  match JSON_parse line with
  | None => non_json_line sessionId line
  | Some JNull => non_json_line sessionId line
  | Some event =>
      let type := get_prop event (lit "type") in
      if is_string type (lit "assistant") then
        if is_string (get_prop event (lit "subtype")) (lit "text") then
          emit (message_stream sessionId
                  (or_else (get_prop event (lit "content")) (JStr []))
                  Text)
        else ret tt
      else if is_string type (lit "tool_use") then
        let* id := nanoid in
        match ToString rt (get_prop event (lit "tool_name")) with
        | None => non_json_line sessionId line
        | Some tool_name =>
            let content :=
              lit "Using tool: " ++ tool_name ++ [LF]
              ++ match JSON_stringify rt (get_prop event (lit "tool_input")) with
                 | Some text => text
                 | None => lit "undefined"
                 end in
            let* timestamp := new_Date in
            emit (message_received
                    {| m_id := id; m_sessionId := sessionId;
                       m_role := Assistant; m_content := JStr content;
                       m_timestamp := timestamp; m_type := ToolUse |})
        end
      else if is_string type (lit "tool_result") then
        let* id := nanoid in
        let* timestamp := new_Date in
        emit (message_received
                {| m_id := id; m_sessionId := sessionId; m_role := System;
                   m_content := or_else (get_prop event (lit "result")) (JStr []);
                   m_timestamp := timestamp; m_type := ToolResult |})
      else if is_string type (lit "result") then
        let* id := nanoid in
        let* timestamp := new_Date in
        emit (message_received
                {| m_id := id; m_sessionId := sessionId; m_role := Assistant;
                   m_content := or_else (get_prop event (lit "content")) (JStr []);
                   m_timestamp := timestamp; m_type := Text |})
      else if is_string type (lit "error") then
        let* id := nanoid in
        let* timestamp := new_Date in
        emit (message_received
                {| m_id := id; m_sessionId := sessionId; m_role := System;
                   m_content := or_else (get_prop event (lit "error"))
                                  (JStr (lit "Unknown error"));
                   m_timestamp := timestamp; m_type := ErrorType |})
      else ret tt
  end.

(** The body of the loop over the complete lines in [onData]. *)
Definition handle_line (sessionId line : jsstring) : M unit :=
  let cleanLine := clean line in
  if nonempty cleanLine then processStreamEvent sessionId cleanLine
  else ret tt.

(** The [onData] callback of a pseudo-terminal spawned for
    [sessionId] with the object [info]. *)
Definition onData (sessionId : jsstring) (info : nat) (data : jsstring)
  : M unit :=
  let* i := read_info info in
  match i with
  | None => ret tt
  | Some i =>
      let '(lines, remainder) := feed (buffer i) data in
      update_info info (set_buffer remainder);;
      for_each lines (handle_line sessionId)
  end.

(** [exitCode === 0 ? "idle" : "error"] *)
Definition exit_status (exitCode : Z) : SessionStatus :=
  if (exitCode =? 0)%Z then Idle else Error.

(** The [onExit] callback. *)
Definition onExit (sessionId : jsstring) (info : nat) (exitCode : Z)
  : M unit :=
  let* i := read_info info in
  match i with
  | None => ret tt
  | Some i =>
      (if nonempty (trim (buffer i)) then
         let cleanBuffer := clean (buffer i) in
         if nonempty cleanBuffer then processStreamEvent sessionId cleanBuffer
         else ret tt
       else ret tt);;
      update_info info (set_status (exit_status exitCode));;
      let* i' := read_info info in
      emit (session_updated (from_option session (session i) i'));;
      let* messageId := nanoid in
      emit (message_complete sessionId messageId)
  end.

(** [ptySpawn(file, args, options)]: on success the new
    pseudo-terminal, whose callbacks close over [sessionId] and [info]. *)
Definition ptySpawn (request : SpawnRequest) (outcome : SpawnOutcome)
    (sessionId : jsstring) (info : nat) : M (jsstring + nat) :=
  do_action (PtySpawn request outcome);;
  match outcome with
  | SpawnThrows thrown => ret (inl thrown)
  | Spawned =>
      fun st =>
        (inr (length (ptys st)),
         set_ptys (ptys st ++ [{| pty_sessionId := sessionId;
                                  pty_info := info; pty_killed := false;
                                  pty_exit := None |}]) st)
  end.

(** [process.env.CLAUDE_PATH || "claude"] *)
Definition claudePath : jsstring :=
  match Map_get (process_env rt) (lit "CLAUDE_PATH") with
  | Some path => if nonempty path then path else lit "claude"
  | None => lit "claude"
  end.

(** The arguments [sendMessage] gives to [ptySpawn]: the executable,
    the [args] array, and the options with the working directory of
    the session and the environment of the engine in which [CI] and
    [TERM] are set. *)
Definition spawn_request (message cwd : jsstring) : SpawnRequest :=
  {| sp_file := claudePath;
     sp_args := [lit "-p"; message; lit "--output-format";
                 lit "stream-json"; lit "--verbose"];
     sp_name := lit "xterm-256color"; sp_cols := 120; sp_rows := 30;
     sp_cwd := cwd;
     sp_env := Map_set (lit "TERM") (lit "xterm-256color")
                 (Map_set (lit "CI") (lit "true") (process_env rt)) |}.

(** How the promise [sendMessage] returns is settled. *)
Inductive SendResult :=
| Resolved
| Rejected (message : jsstring).

(** [sendMessage(sessionId, message)]; [outcome] is what the
    [ptySpawn] call does this time. *)
Definition sendMessage (sessionId message : jsstring) (outcome : SpawnOutcome)
  : M SendResult :=
  let* found := processes_get sessionId in
  match found with
  | None => ret (Rejected (lit "Session not found"))
  | Some info =>
      update_info info (set_status Active);;
      let* i := read_info info in
      match i with
      | None => ret Resolved
      | Some i =>
          emit (session_updated (session i));;
          let* id := nanoid in
          let* timestamp := new_Date in
          emit (message_received
                  {| m_id := id; m_sessionId := sessionId; m_role := User;
                     m_content := JStr message; m_timestamp := timestamp;
                     m_type := Text |});;
          let request := spawn_request message (s_worktreePath (session i)) in
          let* spawned := ptySpawn request outcome sessionId info in
          match spawned with
          | inr ptyProcess =>
              update_info info (set_process (Some ptyProcess));;
              update_info info (set_buffer []);;
              ret Resolved
          | inl thrown =>
              let* id := nanoid in
              let* timestamp := new_Date in
              emit (message_received
                      {| m_id := id; m_sessionId := sessionId;
                         m_role := System;
                         m_content :=
                           JStr (lit "Failed to start Claude Code: " ++ thrown);
                         m_timestamp := timestamp; m_type := ErrorType |});;
              update_info info (set_status Error);;
              let* i' := read_info info in
              emit (session_updated (from_option session (session i) i'));;
              ret Resolved
          end
      end
  end.

(** [info.process.kill()] inside its [try]: an exception it throws is
    logged and dropped. *)
Definition kill (pid : nat) : M unit :=
  do_action (PtyKill pid);;
  fun st => (tt, set_ptys (alter mark_killed pid (ptys st)) st).

(** [stopSession(sessionId)] *)
Definition stopSession (sessionId : jsstring) : M unit :=
  let* found := processes_get sessionId in
  match found with
  | None => ret tt
  | Some info =>
      let* i := read_info info in
      match i ≫= process with
      | Some pid => kill pid
      | None => ret tt
      end;;
      update_info info (set_status Stopped);;
      emit (session_stopped sessionId);;
      fun st => (tt, set_processes (Map_delete sessionId (processes st)) st)
  end.

(** [getSession(sessionId)]; [None] is [undefined]. *)
Definition getSession (st : Manager) (sessionId : jsstring) : option Session :=
  info ← Map_get (processes st) sessionId;
  session <$> heap st !! info.

(** [getAllSessions()] *)
Definition getAllSessions (st : Manager) : list Session :=
  omap (fun info => session <$> heap st !! info) (Map_values (processes st)).

(** [cleanup()] *)
Definition cleanup : M unit :=
  let* sessionIds := (fun st => (Map_keys (processes st), st)) in
  for_each sessionIds stopSession.

(** Delivery of output and of the exit of pseudo-terminal [pid] to
    its callbacks. *)
Definition pty_data (pid : nat) (data : jsstring) : M unit :=
  let* p := (fun st => (ptys st !! pid, st)) in
  match p with
  | Some p => onData (pty_sessionId p) (pty_info p) data
  | None => ret tt
  end.

Definition pty_exit_with (pid : nat) (exitCode : Z) : M unit :=
  let* p := (fun st => (ptys st !! pid, st)) in
  match p with
  | Some p =>
      (fun st =>
         (tt, set_ptys (alter (mark_exited exitCode) pid (ptys st)) st));;
      onExit (pty_sessionId p) (pty_info p) exitCode
  | None => ret tt
  end.

(** *** Runs of the engine

    What happens to a manager from outside: calls of its methods by
    the transport layer, and output and exits of the pseudo-terminals
    it spawned.  JavaScript runs each of them to completion before
    the next. *)
Inductive Input :=
| Start (worktreeId worktreePath : jsstring)
| Send (sessionId message : jsstring) (outcome : SpawnOutcome)
| Stop (sessionId : jsstring)
| Cleanup
| Data (pid : nat) (data : jsstring)
| Exit (pid : nat) (exitCode : Z).

Definition step (i : Input) : M unit :=
  match i with
  | Start worktreeId worktreePath => startSession worktreeId worktreePath;; ret tt
  | Send sessionId message outcome => sendMessage sessionId message outcome;; ret tt
  | Stop sessionId => stopSession sessionId
  | Cleanup => cleanup
  | Data pid data => pty_data pid data
  | Exit pid exitCode => pty_exit_with pid exitCode
  end.

Definition run (inputs : list Input) : M unit := for_each inputs step.

End WithRuntime.

(** The pseudo-terminals spawned for a session that have neither
    exited nor been killed. *)
Definition live_ptys (st : Manager) (sessionId : jsstring) : list nat :=
  (List.filter
     (fun entry : nat * Pty =>
        bool_decide (pty_sessionId entry.2 = sessionId)
        && bool_decide (pty_exit entry.2 = None)
        && negb (pty_killed entry.2))
     (imap pair (ptys st))).*1.

(** Every reference held by the registry or by a pseudo-terminal is to
    an allocated [ProcessInfo]. *)
Definition refs_ok (st : Manager) : Prop :=
  Forall (fun entry => entry.2 < length (heap st))%nat (processes st)
  /\ Forall (fun p => pty_info p < length (heap st))%nat (ptys st).

(** The registry holds one entry per key, as a [Map] does. *)
Definition keys_unique (st : Manager) : Prop :=
  NoDup (Map_keys (processes st)).

End Engine.

Export Engine.

(** ** Vocabulary of the properties *)

Module Observations.

(** The pseudo-terminal stored in the object [r], if any. *)
Definition attached (st : Manager) (r : nat) : option nat :=
  heap st !! r ≫= process.

(** [st] with the objects, the registry and the pseudo-terminals of
    [base]. *)
Definition rebase (base st : Manager) : Manager :=
  {| heap := heap base; processes := processes base; ptys := ptys base;
     ids := ids st; dates := dates st; trace := trace st |}.

(** A computation that draws identifiers, reads the clock and emits
    events, and touches nothing else. *)
Definition log_only {A} (m : M A) : Prop :=
  forall base st, m (rebase base st) = ((m st).1, rebase base (m st).2).

Section Messages.

Variable rt : Runtime.

(** The message [sendMessage] publishes for the prompt, in state [st]. *)
Definition user_message (st : Manager) (sessionId message : jsstring)
  : Message :=
  {| m_id := nanoid_nth rt (ids st); m_sessionId := sessionId;
     m_role := User; m_content := JStr message;
     m_timestamp := date_nth rt (dates st); m_type := Text |}.

(** The message [sendMessage] publishes when [ptySpawn] throws; the
    prompt has taken one identifier and one instant before. *)
Definition spawn_failure_message (st : Manager)
    (sessionId thrown : jsstring) : Message :=
  {| m_id := nanoid_nth rt (S (ids st)); m_sessionId := sessionId;
     m_role := System;
     m_content := JStr (lit "Failed to start Claude Code: " ++ thrown);
     m_timestamp := date_nth rt (S (dates st)); m_type := ErrorType |}.

(** The message published for the line [result_42], in state [st]. *)
Definition final_message (st : Manager) (sessionId : jsstring) : Message :=
  {| m_id := nanoid_nth rt (ids st); m_sessionId := sessionId;
     m_role := Assistant; m_content := JStr (lit "42");
     m_timestamp := date_nth rt (dates st); m_type := Text |}.

End Messages.

(** The output line of the final-result scenario. *)
Definition result_42 : jsstring := dq "{'type':'result','content':'42'}".

(** The line ends that leave [result_42] as the only line: none (the
    exit flushes it), a line feed, or the carriage return and line feed
    of a terminal. *)
Definition line_ends : list jsstring := [[]; [LF]; [13; LF]].

(** ESC [ 2 K, the sequence that erases the current line. *)
Definition erase_line : jsstring := ESC :: lit "[2K".

(** ESC [ 0 m, the sequence that resets the colours. *)
Definition sgr_reset : jsstring := ESC :: lit "[0m".

(** *** A concrete run-time system and concrete states *)

Definition decimal_digit (n : nat) : char16 := 48 + N.of_nat (n mod 10).

Definition demo_runtime : Runtime :=
  {| nanoid_nth := fun n => lit "id-" ++ [decimal_digit (n / 10); decimal_digit n];
     date_nth := fun n => (1700000000000 + Z.of_nat n)%Z;
     process_env := [(lit "PATH", lit "/usr/bin:/bin")];
     ToString := fun v => match v with
                          | Some (JStr s) => Some s
                          | Some (JObj members) =>
                              match last_member (lit "toString") members None with
                              | Some _ => None
                              | None => Some (lit "[object Object]")
                              end
                          | Some _ => Some (lit "[object Object]")
                          | None => Some (lit "undefined")
                          end;
     JSON_stringify := fun v => match v with
                                | Some _ => Some (lit "{}")
                                | None => None
                                end |}.

(** The identifier of the first session [demo_runtime] creates. *)
Definition demo_session : jsstring := lit "id-00".

(** A manager with one idle session. *)
Definition demo_idle : Manager :=
  exec (run demo_runtime [Start (lit "feature") (lit "/repo-feature")])
    empty_manager.

(** The same manager after one successful [sendMessage]: the session
    is active and its subprocess runs. *)
Definition demo_active : Manager :=
  exec (run demo_runtime [Send demo_session (lit "first") Spawned]) demo_idle.

(** The objects of the session in [demo_idle] and in [demo_active]. *)
Definition demo_idle_info : ProcessInfo :=
  {| process := None;
     session := {| s_id := demo_session; s_worktreeId := lit "feature";
                   s_worktreePath := lit "/repo-feature"; s_status := Idle;
                   s_createdAt := 1700000000000 |};
     buffer := [] |}.

Definition demo_active_info : ProcessInfo :=
  {| process := Some 0%nat;
     session := with_status Active (session demo_idle_info);
     buffer := [] |}.

(** The pseudo-terminal of [demo_active]. *)
Definition demo_pty : Pty :=
  {| pty_sessionId := demo_session; pty_info := 0; pty_killed := false;
     pty_exit := None |}.

End Observations.

Export Observations.

Module Text.

(** The pieces of a split put together again: every complete line
    followed by its line feed, then the incomplete fragment. *)
Definition join_lines (lines : list jsstring) (remainder : jsstring) : jsstring :=
  concat ((fun line => line ++ [LF]) <$> lines) ++ remainder.

(** A colour sequence: ESC, '[', parameter characters, 'm'. *)
Definition sgr (params : jsstring) : jsstring := ESC :: 91 :: params ++ [109].

Definition all_params (params : jsstring) : bool := forallb is_param params.
Definition all_spaces (s : jsstring) : bool := forallb is_space s.

(** No ESC in the text. *)
Definition no_escape (s : jsstring) : bool :=
  forallb (fun c => negb (c =? ESC)) s.

End Text.
Export Text.

Module Ledger.

(** The state after a call that drew one identifier, read the clock
    once and published the message [m]. *)
Definition published (m : Message) (st : Manager) : Manager :=
  {| heap := heap st; processes := processes st; ptys := ptys st;
     ids := S (ids st); dates := S (dates st);
     trace := trace st ++ [Emit (message_received m)] |}.

(** The state after a call that drew one identifier, dropped it, and
    published [line] as a text chunk for [sessionId]. *)
Definition streamed_after_draw (sessionId line : jsstring) (st : Manager)
  : Manager :=
  {| heap := heap st; processes := processes st; ptys := ptys st;
     ids := S (ids st); dates := dates st;
     trace := trace st ++ [Emit (message_stream sessionId (JStr line) Text)] |}.

(** The roles and types of the messages the classifier publishes. *)
Definition classifier_kinds : list (Role * MessageType) :=
  [(Assistant, ToolUse); (System, ToolResult); (Assistant, Text);
   (System, ErrorType)].

(** The identifiers an effect hands out to the listeners: the one of a
    created session, of a message, of a completion marker. *)
Definition minted (a : Action) : list jsstring :=
  match a with
  | Emit (session_created s) => [s_id s]
  | Emit (message_received m) => [m_id m]
  | Emit (message_complete _ messageId) => [messageId]
  | _ => []
  end.

Definition minted_ids (t : list Action) : list jsstring := t ≫= minted.


(** No two registry entries share a [ProcessInfo] object. *)
Definition refs_distinct (st : Manager) : Prop :=
  NoDup (Map_values (processes st)).

(** Every registry entry and every pseudo-terminal refers to the object
    of the session it is named after. *)
Definition ids_match (st : Manager) : Prop :=
  (forall k r i, (k, r) ∈ processes st -> heap st !! r = Some i ->
                 s_id (session i) = k)
  /\ (forall p i, p ∈ ptys st -> heap st !! pty_info p = Some i ->
                  s_id (session i) = pty_sessionId p).

(** No buffer holds a line feed. *)
Definition buffers_clean (st : Manager) : Prop :=
  forall i, i ∈ heap st -> LF ∉ buffer i.

Section WithRuntime.

Variable rt : Runtime.

(** What a message published by the classifier for [sessionId] in
    state [st] looks like. *)
Definition classified (st : Manager) (sessionId : jsstring) (m : Message) : Prop :=
  m_id m = nanoid_nth rt (ids st)
  /\ m_sessionId m = sessionId
  /\ m_timestamp m = date_nth rt (dates st)
  /\ (m_role m, m_type m) ∈ classifier_kinds.

(** The identifiers [nanoid()] has returned so far. *)
Definition drawn_ids (st : Manager) : list jsstring :=
  nanoid_nth rt <$> seq 0 (ids st).

(** The identifiers handed out so far are identifiers drawn so far,
    in the order drawn, none of them handed out twice. *)
Definition ids_published (st : Manager) : Prop :=
  minted_ids (trace st) `sublist_of` drawn_ids st.

(** [st'] continues [st]: what it adds to the trace hands out
    identifiers drawn in between, in the order drawn. *)
Definition in_order (st st' : Manager) : Prop :=
  exists new k,
    trace st' = trace st ++ new
    /\ ids st' = (ids st + k)%nat
    /\ minted_ids new `sublist_of` (nanoid_nth rt <$> seq (ids st) k).

(** What holds of every state a manager can be in. *)
Record well_formed (st : Manager) : Prop := {
  wf_refs : refs_ok st;
  wf_keys : keys_unique st;
  wf_distinct : refs_distinct st;
  wf_buffers : buffers_clean st;
  wf_ids : ids_published st;
  wf_match : ids_match st;
}.

(** The session [startSession] creates in state [st]. *)
Definition new_session_of (st : Manager) (worktreeId worktreePath : jsstring)
  : Session :=
  {| s_id := nanoid_nth rt (ids st); s_worktreeId := worktreeId;
     s_worktreePath := worktreePath; s_status := Idle;
     s_createdAt := date_nth rt (dates st) |}.

(** The states a manager can be in. *)
Definition reachable (st : Manager) : Prop :=
  exists inputs, st = exec (run rt inputs) empty_manager.

End WithRuntime.

End Ledger.
Export Ledger.

Module Lines.

(** A code unit that stands for itself inside a JSON string: not the
    quote, not the backslash, not a control character. *)
Definition plain (c : char16) : bool :=
  negb (c =? 34) && negb (c =? 92) && negb (c <? 32).

Definition all_plain (s : jsstring) : bool := forallb plain s.

(** The output lines of the subprocess, for a text [s] written between
    quotes as it is. *)
Definition result_line (s : jsstring) : jsstring :=
  dq "{'type':'result','content':'" ++ s ++ dq "'}".

Definition assistant_line (subtype s : jsstring) : jsstring :=
  dq "{'type':'assistant','subtype':'" ++ subtype ++ dq "','content':'"
  ++ s ++ dq "'}".

Definition error_line (s : jsstring) : jsstring :=
  dq "{'type':'error','error':'" ++ s ++ dq "'}".

Definition tool_result_line (s : jsstring) : jsstring :=
  dq "{'type':'tool_result','result':'" ++ s ++ dq "'}".

Definition typed_line (kind : jsstring) : jsstring :=
  dq "{'type':'" ++ kind ++ dq "'}".

(** The values of [type] the classifier knows. *)
Definition known_kinds : list jsstring :=
  [lit "assistant"; lit "tool_use"; lit "tool_result"; lit "result";
   lit "error"].

End Lines.
Export Lines.

Module MoreDemo.

(** [demo_active] with a second, idle session. *)
Definition demo_two_sessions : Manager :=
  exec (run demo_runtime [Start (lit "bugfix") (lit "/repo-bugfix")]) demo_active.

Definition demo_second_session : jsstring := lit "id-02".

(** [demo_active] after a second successful send to its session: two
    subprocesses run for it. *)
Definition demo_double_send : Manager :=
  exec (run demo_runtime [Send demo_session (lit "second") Spawned]) demo_active.

(** [demo_double_send] after the subprocess of the second send has
    exited with code 0: the entry of the session still holds the handle
    of that subprocess, and the subprocess of the first send still
    runs. *)
Definition demo_replaced : Manager :=
  exec (run demo_runtime [Exit 1 0%Z]) demo_double_send.


(** The inputs that lead to the concrete states. *)
Definition demo_active_inputs : list Input :=
  [Start (lit "feature") (lit "/repo-feature");
   Send demo_session (lit "first") Spawned].

Definition demo_two_sessions_inputs : list Input :=
  demo_active_inputs ++ [Start (lit "bugfix") (lit "/repo-bugfix")].

Definition demo_double_send_inputs : list Input :=
  demo_active_inputs ++ [Send demo_session (lit "second") Spawned].

End MoreDemo.
Export MoreDemo.

Create HintDb log_only.

(** * Properties *)

(** ** The decoder *)

Module JsonFacts.

Lemma skip_ws_length s : (length (skip_ws s) <= length s)%nat.
Proof.
  induction s as [|c s IH]; cbn; [done|]. destruct (is_json_ws c); cbn; lia.
Qed.

Lemma skip_ws_cons s c rest :
  skip_ws s = c :: rest -> (length rest < length s)%nat.
Proof.
  intros H. pose proof (skip_ws_length s) as Hl. rewrite H in Hl. cbn in Hl. lia.
Qed.

Lemma strip_prefix_length p s r :
  strip_prefix p s = Some r -> (length r <= length s)%nat.
Proof.
  revert s. induction p as [|a p IH]; intros [|b s]; cbn; try done.
  - by intros [= <-].
  - by intros [= <-].
  - destruct (a =? b); [|done]. intros ?%IH. lia.
Qed.

Lemma take_digits_length acc count s :
  (length (take_digits acc count s).2 <= length s)%nat.
Proof.
  revert acc count. induction s as [|c s IH]; intros acc count; cbn; [done|].
  destruct (is_digit c); cbn; [|done]. specialize (IH (acc * 10 + (c - 48)) (S count)). lia.
Qed.

Lemma parse_int_part_length s n r :
  parse_int_part s = Some (n, r) -> (length r < length s)%nat.
Proof.
  destruct s as [|c s]; cbn; [done|].
  destruct (c =? 48); [intros [= _ <-]; lia|].
  destruct (is_digit c) eqn:Hd; [|done].
  pose proof (take_digits_length (0 * 10 + (c - 48)) 1 s) as Hl.
  destruct (take_digits _ _ s) as [[m k] rest]. intros [= _ <-]. cbn in Hl. lia.
Qed.

Lemma parse_frac_part_length int s n k r :
  parse_frac_part int s = Some (n, k, r) -> (length r <= length s)%nat.
Proof.
  destruct s as [|c s]; cbn; [by intros [= _ _ <-]|].
  destruct (c =? 46); [|by intros [= _ _ <-]].
  pose proof (take_digits_length int 0 s) as Hl.
  destruct (take_digits int 0 s) as [[m [|j]] rest]; [done|].
  intros [= _ _ <-]. cbn in Hl. lia.
Qed.

Lemma parse_exp_part_length s e r :
  parse_exp_part s = Some (e, r) -> (length r <= length s)%nat.
Proof.
  destruct s as [|c s]; cbn; [by intros [= _ <-]|].
  destruct ((c =? 101) || (c =? 69)); [|by intros [= _ <-]].
  destruct s as [|sign s]; cbn; [done|].
  destruct (sign =? 45); [|destruct (sign =? 43)].
  - pose proof (take_digits_length 0 0 s) as Hl.
    destruct (take_digits 0 0 s) as [[m [|j]] rest]; [done|].
    intros [= _ <-]. cbn in Hl. lia.
  - pose proof (take_digits_length 0 0 s) as Hl.
    destruct (take_digits 0 0 s) as [[m [|j]] rest]; [done|].
    intros [= _ <-]. cbn in Hl. lia.
  - pose proof (take_digits_length 0 0 (sign :: s)) as Hl.
    destruct (take_digits 0 0 (sign :: s)) as [[m [|j]] rest]; [done|].
    intros [= _ <-]. cbn in Hl. lia.
Qed.

Lemma parse_number_length s n r :
  parse_number s = Some (n, r) -> (length r < length s)%nat.
Proof.
  unfold parse_number.
  set (split := match s with
                | c :: rest => if c =? 45 then (true, rest) else (false, s)
                | [] => (false, [])
                end).
  assert (Hs : (length split.2 <= length s)%nat).
  { unfold split. destruct s as [|c s]; [done|]. destruct (c =? 45); cbn; lia. }
  destruct split as [negative s1]. cbn in Hs.
  destruct (parse_int_part s1) as [[int s2]|] eqn:H1; [|done]. cbn.
  destruct (parse_frac_part int s2) as [[[m k] s3]|] eqn:H2; [|done]. cbn.
  destruct (parse_exp_part s3) as [[e s4]|] eqn:H3; [|done]. cbn.
  intros [= _ <-].
  apply parse_int_part_length in H1. apply parse_frac_part_length in H2.
  apply parse_exp_part_length in H3. lia.
Qed.

Lemma parse_string_body_length s body r :
  parse_string_body s = Some (body, r) -> (length r < length s)%nat.
Proof.
  remember (length s) as n eqn:Hn.
  assert (Hle : (length s <= n)%nat) by lia. clear Hn.
  revert s body r Hle. induction n as [|n IH]; intros [|c s] body r Hle;
    cbn in Hle; try done; try lia.
  cbn [parse_string_body].
  destruct (c =? 34); [intros [= _ <-]; cbn; lia|].
  destruct (c =? 92).
  - destruct s as [|e s1]; [done|].
    destruct (e =? 117).
    + destruct s1 as [|a [|b [|c' [|d s2]]]]; try done.
      destruct (hex4 a b c' d); [|done]. cbn.
      destruct (parse_string_body s2) as [[body' after]|] eqn:Hrec; [|done].
      cbn. intros [= _ <-]. apply IH in Hrec; cbn in *; lia.
    + destruct (simple_escape e); [|done]. cbn.
      destruct (parse_string_body s1) as [[body' after]|] eqn:Hrec; [|done].
      cbn. intros [= _ <-]. apply IH in Hrec; cbn in *; lia.
  - destruct (c <? 32); [done|].
    destruct (parse_string_body s) as [[body' after]|] eqn:Hrec; [|done].
    cbn. intros [= _ <-]. apply IH in Hrec; cbn in *; lia.
Qed.

(** What a value, a list of elements or a list of members leaves
    unread is shorter than what it was given. *)
Lemma parse_length fuel :
  (forall s v r, parse_value fuel s = Some (v, r) ->
                 (length r < length s)%nat)
  /\ (forall s acc v r, parse_elements fuel s acc = Some (v, r) ->
                        (length r < length s)%nat)
  /\ (forall s acc v r, parse_members fuel s acc = Some (v, r) ->
                        (length r < length s)%nat).
Proof.
  induction fuel as [|fuel (IHv & IHe & IHm)]; [done|]. split_and!.
  - intros s v r. cbn [parse_value].
    destruct (skip_ws s) as [|c rest] eqn:Hs; [done|].
    apply skip_ws_cons in Hs.
    repeat case_match; try done.
    all: repeat match goal with
           | Hws : skip_ws _ = _ :: _ |- _ => apply skip_ws_cons in Hws
           end.
    all: intros Hres.
    all: try (injection Hres as _ <-; lia).
    all: try (apply IHm in Hres; lia).
    all: try (apply IHe in Hres; lia).
    + destruct (parse_string_body rest) as [[str after]|] eqn:Hb; [|done].
      apply parse_string_body_length in Hb. injection Hres as _ <-. lia.
    + destruct (strip_prefix _ rest) as [after|] eqn:Hp; [|done].
      apply strip_prefix_length in Hp. injection Hres as _ <-. lia.
    + destruct (strip_prefix _ rest) as [after|] eqn:Hp; [|done].
      apply strip_prefix_length in Hp. injection Hres as _ <-. lia.
    + destruct (strip_prefix _ rest) as [after|] eqn:Hp; [|done].
      apply strip_prefix_length in Hp. injection Hres as _ <-. lia.
    + destruct (parse_number (c :: rest)) as [[n after]|] eqn:Hn; [|done].
      apply parse_number_length in Hn. injection Hres as _ <-. cbn in Hn. lia.
  - intros s acc v r. cbn [parse_elements].
    destruct (parse_value fuel s) as [[v' after]|] eqn:Hv; [|done]. cbn.
    apply IHv in Hv.
    destruct (skip_ws after) as [|c rest] eqn:Hs; [done|].
    apply skip_ws_cons in Hs.
    repeat case_match; try done; intros Hres.
    + apply IHe in Hres. lia.
    + injection Hres as _ <-. lia.
  - intros s acc v r. cbn [parse_members].
    destruct (skip_ws s) as [|c rest] eqn:Hs; [done|].
    apply skip_ws_cons in Hs.
    destruct (c =? 34); [|done].
    destruct (parse_string_body rest) as [[key after_key]|] eqn:Hb; [|done].
    apply parse_string_body_length in Hb. cbn.
    destruct (skip_ws after_key) as [|colon after_colon] eqn:Hs2; [done|].
    apply skip_ws_cons in Hs2.
    destruct (colon =? 58); [|done].
    destruct (parse_value fuel after_colon) as [[v' after]|] eqn:Hv; [|done].
    apply IHv in Hv. cbn.
    destruct (skip_ws after) as [|c' rest'] eqn:Hs3; [done|].
    apply skip_ws_cons in Hs3.
    repeat case_match; try done; intros Hres.
    + apply IHm in Hres. lia.
    + injection Hres as _ <-. lia.
Qed.

(** With fuel above twice the length of the text, more fuel changes
    nothing: the fuel [JSON_parse] gives is never exhausted. *)
Lemma parse_fuel_enough fuel :
  (forall s k, (2 * length s < fuel)%nat ->
               parse_value (fuel + k) s = parse_value fuel s)
  /\ (forall s acc k, (2 * length s + 1 < fuel)%nat ->
                      parse_elements (fuel + k) s acc = parse_elements fuel s acc)
  /\ (forall s acc k, (2 * length s + 1 < fuel)%nat ->
                      parse_members (fuel + k) s acc = parse_members fuel s acc).
Proof.
  induction fuel as [|fuel (IHv & IHe & IHm)]; [split_and!; intros; lia|].
  split_and!.
  - intros s k Hlen. cbn [Nat.add parse_value].
    destruct (skip_ws s) as [|c rest] eqn:Hs; [done|].
    apply skip_ws_cons in Hs.
    destruct (c =? 123).
    { destruct (skip_ws rest) as [|c' rest'] eqn:Hs'; [done|].
      destruct (c' =? 125); [done|]. apply IHm. lia. }
    destruct (c =? 91); [|done].
    destruct (skip_ws rest) as [|c' rest'] eqn:Hs'; [done|].
    destruct (c' =? 93); [done|]. apply IHe. lia.
  - intros s acc k Hlen. cbn [Nat.add parse_elements].
    rewrite IHv by lia.
    destruct (parse_value fuel s) as [[v after]|] eqn:Hv; [|done]. cbn.
    apply (proj1 (parse_length fuel)) in Hv.
    destruct (skip_ws after) as [|c rest] eqn:Hs; [done|].
    apply skip_ws_cons in Hs.
    destruct (c =? 44); [|done]. apply IHe. lia.
  - intros s acc k Hlen. cbn [Nat.add parse_members].
    destruct (skip_ws s) as [|c rest] eqn:Hs; [done|].
    apply skip_ws_cons in Hs.
    destruct (c =? 34); [|done].
    destruct (parse_string_body rest) as [[key after_key]|] eqn:Hb; [|done].
    apply parse_string_body_length in Hb. cbn.
    destruct (skip_ws after_key) as [|colon after_colon] eqn:Hs2; [done|].
    apply skip_ws_cons in Hs2.
    destruct (colon =? 58); [|done].
    rewrite IHv by lia.
    destruct (parse_value fuel after_colon) as [[v after]|] eqn:Hv; [|done].
    apply (proj1 (parse_length fuel)) in Hv. cbn.
    destruct (skip_ws after) as [|c' rest'] eqn:Hs3; [done|].
    apply skip_ws_cons in Hs3.
    destruct (c' =? 44); [|done]. apply IHm. lia.
Qed.

(** [JSON_parse] is the parser with unbounded fuel. *)
Lemma JSON_parse_any_fuel (text : jsstring) (k : nat) :
  JSON_parse text
  = '(v, after) ← parse_value (2 * length text + 2 + k) text;
    match skip_ws after with
    | [] => Some v
    | _ :: _ => None
    end.
Proof.
  unfold JSON_parse.
  by rewrite (proj1 (parse_fuel_enough (2 * length text + 2)) text k) by lia.
Qed.

End JsonFacts.

(** ** The line parser *)

Module LineParserFacts.

Lemma split_lines_nonempty (s : jsstring) : split_lines s <> [].
Proof.
  destruct s as [|c s]; simpl; [done|].
  destruct (c =? LF); [done|]. by destruct (split_lines s).
Qed.

Lemma pop_or_empty_last (pieces : list jsstring) :
  pop_or_empty pieces = (List.removelast pieces, List.last pieces []).
Proof.
  unfold pop_or_empty. by destruct (List.last pieces []).
Qed.

Lemma last_append {A} (l l' : list A) (d : A) :
  l' <> [] -> List.last (l ++ l') d = List.last l' d.
Proof.
  intros Hne. induction l as [|x l IH]; [done|].
  cbn [app List.last]. rewrite IH.
  destruct (l ++ l') eqn:E; [|done].
  by apply app_eq_nil in E as [_ ->].
Qed.

(** Splitting a concatenation: the complete pieces of the first part,
    then the pieces of its last fragment followed by the second part. *)
Lemma split_lines_app (a b : jsstring) :
  split_lines (a ++ b) =
  List.removelast (split_lines a)
  ++ split_lines (List.last (split_lines a) [] ++ b).
Proof.
  induction a as [|c a IH]; [done|].
  pose proof (split_lines_nonempty a) as Hne.
  cbn [app split_lines]. destruct (c =? LF) eqn:Hc.
  - rewrite IH. destruct (split_lines a) as [|p ps] eqn:E; [done|].
    by destruct ps.
  - rewrite IH. destruct (split_lines a) as [|p ps] eqn:E; [done|].
    destruct ps as [|q qs]; [|done].
    cbn. by rewrite Hc.
Qed.

(** A piece of a split contains no line feed. *)
Lemma split_lines_no_LF (s piece : jsstring) :
  piece ∈ split_lines s -> LF ∉ piece.
Proof.
  revert piece. induction s as [|c s IH]; intros piece.
  - cbn. intros ->%list_elem_of_singleton. apply not_elem_of_nil.
  - cbn. destruct (N.eqb_spec c LF) as [->|Hc].
    + intros [->|?]%elem_of_cons; [apply not_elem_of_nil | by apply IH].
    + destruct (split_lines s) as [|p ps].
      * intros ->%list_elem_of_singleton.
        by intros [?|[]%not_elem_of_nil]%elem_of_cons.
      * intros [->|?]%elem_of_cons.
        -- intros [?|?]%elem_of_cons; [done|].
           eapply IH; [|done]. left.
        -- apply IH. by right.
Qed.

Lemma split_lines_without_LF (s : jsstring) :
  LF ∉ s -> split_lines s = [s].
Proof.
  induction s as [|c s IH]; [done|].
  intros [Hc Hs]%not_elem_of_cons. cbn.
  destruct (N.eqb_spec c LF) as [->|_]; [done|]. by rewrite IH.
Qed.

Lemma last_elem_of {A} (l : list A) (d : A) : l <> [] -> List.last l d ∈ l.
Proof.
  induction l as [|x l IH]; [done|]. intros _.
  destruct l as [|y l]; [left|]. right. by apply IH.
Qed.

(** The buffer left by [feed] holds no line feed. *)
Lemma feed_remainder_no_LF (buffer data : jsstring) :
  LF ∉ (feed buffer data).2.
Proof.
  unfold feed. rewrite pop_or_empty_last. cbn.
  eapply split_lines_no_LF, last_elem_of, split_lines_nonempty.
Qed.

(** Feeding [d1 ++ d2] at once is feeding [d1] and then [d2]. *)
Lemma feed_app (buffer d1 d2 : jsstring) :
  feed buffer (d1 ++ d2) =
  ((feed buffer d1).1 ++ (feed (feed buffer d1).2 d2).1,
   (feed (feed buffer d1).2 d2).2).
Proof.
  unfold feed. rewrite !pop_or_empty_last. cbn [fst snd].
  rewrite app_assoc, split_lines_app.
  pose proof (split_lines_nonempty
                (List.last (split_lines (buffer ++ d1)) [] ++ d2)).
  by rewrite removelast_app, last_append.
Qed.

Lemma feed_nil (buffer : jsstring) :
  LF ∉ buffer -> feed buffer [] = ([], buffer).
Proof.
  intros H. unfold feed. rewrite pop_or_empty_last, app_nil_r.
  by rewrite split_lines_without_LF.
Qed.

Lemma feed_all_concat (buffer : jsstring) (chunks : list jsstring) :
  LF ∉ buffer -> feed_all buffer chunks = feed buffer (concat chunks).
Proof.
  revert buffer. induction chunks as [|d chunks IH]; intros buffer Hb.
  - cbn. by rewrite feed_nil.
  - cbn [feed_all concat]. rewrite feed_app.
    destruct (feed buffer d) as [lines b'] eqn:E. cbn [fst snd].
    rewrite IH; [by destruct (feed b' (concat chunks))|].
    change b' with (lines, b').2. rewrite <- E. apply feed_remainder_no_LF.
Qed.

(** C3. Chunk-boundary invariance: whatever way the output of the
    subprocess is cut into chunks, feeding the chunks one at a time,
    starting from the empty buffer of a fresh subprocess, produces the
    same complete lines in the same order, and leaves the same
    incomplete fragment, as feeding the whole output at once. *)
Theorem chunk_boundary_invariance (chunks : list jsstring) :
  feed_all [] chunks = feed [] (concat chunks).
Proof.
  apply feed_all_concat, not_elem_of_nil.
Qed.

End LineParserFacts.

(** ** The engine *)

Module EngineFacts.

Section Facts.

Variable rt : Runtime.

Lemma alter_insert {A} (f : A -> A) (l : list A) (i : nat) (x : A) :
  l !! i = Some x -> alter f i l = <[i := f x]> l.
Proof.
  revert i. induction l as [|y l IH]; intros [|i]; try done.
  - by intros [= ->].
  - cbn. intros H. f_equal. by apply IH.
Qed.

Lemma sendMessage_unknown st sid msg outcome :
  Map_get (processes st) sid = None ->
  sendMessage rt sid msg outcome st = (Rejected (lit "Session not found"), st).
Proof.
  intros Hget. unfold sendMessage, bind, processes_get. by rewrite Hget.
Qed.

Lemma sendMessage_spawned st sid msg r i :
  Map_get (processes st) sid = Some r ->
  heap st !! r = Some i ->
  sendMessage rt sid msg Spawned st =
  (Resolved,
   {| heap := <[r := {| process := Some (length (ptys st));
                        session := with_status Active (session i);
                        buffer := [] |}]> (heap st);
      processes := processes st;
      ptys := ptys st ++ [{| pty_sessionId := sid; pty_info := r;
                             pty_killed := false; pty_exit := None |}];
      ids := S (ids st);
      dates := S (dates st);
      trace := trace st ++
        [Emit (session_updated (with_status Active (session i)));
         Emit (message_received (user_message rt st sid msg));
         PtySpawn (spawn_request rt msg (s_worktreePath (session i))) Spawned] |}).
Proof.
  intros Hget Hi.
  unfold sendMessage, bind, processes_get. cbn. rewrite Hget. cbn.
  rewrite list_lookup_alter_eq, Hi. cbn.
  rewrite !list_alter_alter_eq, (alter_insert _ _ _ _ Hi).
  unfold ret, set_heap, set_ptys, set_trace. cbn.
  by rewrite <- !app_assoc.
Qed.

Lemma sendMessage_spawn_throws st sid msg thrown r i :
  Map_get (processes st) sid = Some r ->
  heap st !! r = Some i ->
  sendMessage rt sid msg (SpawnThrows thrown) st =
  (Resolved,
   {| heap := <[r := {| process := process i;
                        session := with_status Error (session i);
                        buffer := buffer i |}]> (heap st);
      processes := processes st;
      ptys := ptys st;
      ids := S (S (ids st));
      dates := S (S (dates st));
      trace := trace st ++
        [Emit (session_updated (with_status Active (session i)));
         Emit (message_received (user_message rt st sid msg));
         PtySpawn (spawn_request rt msg (s_worktreePath (session i)))
           (SpawnThrows thrown);
         Emit (message_received (spawn_failure_message rt st sid thrown));
         Emit (session_updated (with_status Error (session i)))] |}).
Proof.
  intros Hget Hi.
  unfold sendMessage, bind, processes_get. cbn. rewrite Hget. cbn.
  rewrite list_lookup_alter_eq, Hi. cbn.
  rewrite !list_alter_alter_eq, list_lookup_alter_eq, Hi.
  rewrite (alter_insert _ _ _ _ Hi).
  unfold ret, set_heap, set_ptys, set_trace. cbn.
  by rewrite <- !app_assoc.
Qed.

Lemma stopSession_unknown st sid :
  Map_get (processes st) sid = None -> stopSession sid st = (tt, st).
Proof.
  intros Hget. unfold stopSession, bind, processes_get. by rewrite Hget.
Qed.

Lemma stopSession_known st sid r i :
  Map_get (processes st) sid = Some r ->
  heap st !! r = Some i ->
  stopSession sid st =
  (tt,
   {| heap := <[r := set_status Stopped i]> (heap st);
      processes := Map_delete sid (processes st);
      ptys := match process i with
              | Some pid => alter mark_killed pid (ptys st)
              | None => ptys st
              end;
      ids := ids st;
      dates := dates st;
      trace := trace st
               ++ match process i with
                  | Some pid => [PtyKill pid]
                  | None => []
                  end
               ++ [Emit (session_stopped sid)] |}).
Proof.
  intros Hget Hi.
  unfold stopSession, bind, processes_get. cbn. rewrite Hget. cbn.
  rewrite Hi. cbn. rewrite <- (alter_insert _ _ _ _ Hi).
  destruct (process i) as [pid|]; cbn; unfold set_heap, set_processes; cbn.
  - by rewrite <- !app_assoc.
  - done.
Qed.


(** *** The registry *)

Lemma Map_get_delete_eq {V} (m : list (jsstring * V)) (k : jsstring) :
  Map_get (Map_delete k m) k = None.
Proof.
  unfold Map_get, Map_delete. induction m as [|[k' v] m IH]; [done|].
  cbn. destruct (bool_decide_reflect (k' = k)) as [->|Hne]; cbn; [done|].
  by rewrite bool_decide_eq_false_2.
Qed.

Lemma Map_get_delete_ne {V} (m : list (jsstring * V)) (k k' : jsstring) :
  k <> k' -> Map_get (Map_delete k m) k' = Map_get m k'.
Proof.
  intros Hne. unfold Map_get, Map_delete.
  induction m as [|[k0 v] m IH]; [done|]. cbn.
  destruct (bool_decide_reflect (k0 = k)) as [->|Hne0]; cbn.
  - by rewrite bool_decide_eq_false_2.
  - by destruct (bool_decide (k0 = k')).
Qed.

Lemma Map_delete_elem_of {V} (m : list (jsstring * V)) (k : jsstring) e :
  e ∈ Map_delete k m <-> e.1 <> k /\ e ∈ m.
Proof.
  unfold Map_delete. rewrite !list_elem_of_In, filter_In.
  rewrite negb_true_iff, bool_decide_eq_false. tauto.
Qed.


(** *** Sequencing *)

Lemma exec_bind {A B} (m : M A) (k : A -> M B) (st : Manager) :
  exec (bind m k) st = exec (k (eval m st)) (exec m st).
Proof. unfold exec, eval, bind. by destruct (m st). Qed.

Lemma exec_for_each_cons {A} (a : A) (l : list A) (body : A -> M unit) st :
  exec (for_each (a :: l) body) st = exec (for_each l body) (exec (body a) st).
Proof. cbn [for_each]. by rewrite exec_bind. Qed.

Lemma exec_for_each_app {A} (l1 l2 : list A) (body : A -> M unit) st :
  exec (for_each (l1 ++ l2) body) st
  = exec (for_each l2 body) (exec (for_each l1 body) st).
Proof.
  revert st. induction l1 as [|a l1 IH]; intros st; [done|].
  cbn [app]. by rewrite !exec_for_each_cons, IH.
Qed.

(** *** [stopSession] and [cleanup] *)

Lemma stopSession_registered st sid r :
  Map_get (processes st) sid = Some r ->
  stopSession sid st =
  (tt,
   {| heap := alter (set_status Stopped) r (heap st);
      processes := Map_delete sid (processes st);
      ptys := match attached st r with
              | Some pid => alter mark_killed pid (ptys st)
              | None => ptys st
              end;
      ids := ids st;
      dates := dates st;
      trace := trace st
               ++ match attached st r with
                  | Some pid => [PtyKill pid]
                  | None => []
                  end
               ++ [Emit (session_stopped sid)] |}).
Proof.
  intros Hget.
  unfold stopSession, bind, processes_get, attached. cbn. rewrite Hget. cbn.
  destruct (heap st !! r ≫= process) as [pid|]; cbn;
    unfold set_heap, set_processes; cbn; [|done].
  by rewrite <- !app_assoc.
Qed.




(** *** Computations that only log

    [processStreamEvent] draws identifiers, reads the clock and emits
    events; it touches neither the objects, nor the registry, nor the
    pseudo-terminals. *)

Lemma log_only_ret {A} (a : A) : log_only (ret a).
Proof. done. Qed.

Lemma log_only_bind {A B} (m : M A) (k : A -> M B) :
  log_only m -> (forall a, log_only (k a)) -> log_only (bind m k).
Proof.
  intros Hm Hk base st. unfold bind. rewrite Hm.
  destruct (m st) as [a st1]. cbn. apply Hk.
Qed.

Lemma log_only_emit (e : Event) : log_only (emit e).
Proof. done. Qed.

Lemma log_only_nanoid : log_only (nanoid rt).
Proof. done. Qed.

Lemma log_only_new_Date : log_only (new_Date rt).
Proof. done. Qed.

Local Hint Resolve log_only_ret log_only_emit log_only_nanoid log_only_new_Date
  : log_only.

Ltac log_only :=
  repeat first
    [ apply log_only_bind; [|intros ?]
    | progress auto with log_only
    | case_match ].

Lemma log_only_processStreamEvent sid line :
  log_only (processStreamEvent rt sid line).
Proof. unfold processStreamEvent, non_json_line. log_only. Qed.

Lemma log_only_handle_line sid line : log_only (handle_line rt sid line).
Proof.
  unfold handle_line. case_match; auto using log_only_processStreamEvent
    with log_only.
Qed.

Lemma log_only_for_each {A} (l : list A) (body : A -> M unit) :
  (forall a, log_only (body a)) -> log_only (for_each l body).
Proof.
  intros Hbody. induction l as [|a l IH]; cbn [for_each]; [done|].
  by apply log_only_bind.
Qed.

Lemma rebase_self st : rebase st st = st.
Proof. by destruct st. Qed.

Lemma rebase_set_heap h st : set_heap h st = rebase (set_heap h st) st.
Proof. done. Qed.

Lemma log_only_exec {A} (m : M A) base st :
  log_only m -> exec m (rebase base st) = rebase base (exec m st).
Proof. intros Hm. unfold exec. by rewrite Hm. Qed.

Lemma log_only_same {A} (m : M A) st :
  log_only m ->
  heap (exec m st) = heap st /\ processes (exec m st) = processes st
  /\ ptys (exec m st) = ptys st.
Proof.
  intros Hm. rewrite <- (rebase_self st) at 1 3 5.
  by rewrite log_only_exec.
Qed.

(** *** The [onData] callback *)

Lemma onData_spec st sid r i data :
  heap st !! r = Some i ->
  exec (onData rt sid r data) st =
  exec (for_each (feed (buffer i) data).1 (handle_line rt sid))
       (set_heap (<[r := set_buffer (feed (buffer i) data).2 i]> (heap st)) st).
Proof.
  intros Hi. unfold onData. rewrite exec_bind.
  unfold eval, exec at 2, read_info. cbn [fst snd]. rewrite Hi.
  destruct (feed (buffer i) data) as [lines remainder]. rewrite exec_bind.
  unfold exec at 2, update_info. cbn [fst snd].
  by rewrite (alter_insert _ _ _ _ Hi).
Qed.

Lemma set_buffer_same i : set_buffer (buffer i) i = i.
Proof. by destruct i. Qed.

Lemma set_heap_same st : set_heap (heap st) st = st.
Proof. by destruct st. Qed.

(** Output delivered in two pieces has the effect of the same output
    delivered in one piece. *)
Lemma onData_app st sid r i d1 d2 :
  heap st !! r = Some i ->
  exec (onData rt sid r d2) (exec (onData rt sid r d1) st)
  = exec (onData rt sid r (d1 ++ d2)) st.
Proof.
  intros Hi.
  pose proof (lookup_lt_Some _ _ _ Hi) as Hlt.
  rewrite (onData_spec st _ _ _ d1 Hi).
  set (h1 := <[r := set_buffer (feed (buffer i) d1).2 i]> (heap st)).
  set (l1 := (feed (buffer i) d1).1).
  assert (Hlog : forall l, log_only (for_each l (handle_line rt sid)))
    by (intros l; apply log_only_for_each, log_only_handle_line).
  rewrite (rebase_set_heap h1 st), log_only_exec by done.
  erewrite onData_spec; last first.
  { cbn. unfold h1. by apply list_lookup_insert_eq. }
  cbn [buffer set_buffer]. rewrite (onData_spec st _ _ _ (d1 ++ d2) Hi).
  rewrite LineParserFacts.feed_app. cbn [fst snd]. fold l1.
  set (l2 := (feed (feed (buffer i) d1).2 d2).1).
  set (b2 := (feed (feed (buffer i) d1).2 d2).2).
  rewrite exec_for_each_app.
  rewrite (rebase_set_heap (<[r:=set_buffer b2 i]> (heap st)) st).
  rewrite log_only_exec by done.
  f_equal. unfold rebase, set_heap, h1. cbn.
  by rewrite list_insert_insert_eq.
Qed.

Lemma onData_keeps st sid r i data :
  heap st !! r = Some i ->
  heap (exec (onData rt sid r data) st)
    = <[r := set_buffer (feed (buffer i) data).2 i]> (heap st)
  /\ processes (exec (onData rt sid r data) st) = processes st
  /\ ptys (exec (onData rt sid r data) st) = ptys st.
Proof.
  intros Hi. rewrite (onData_spec _ _ _ _ _ Hi).
  edestruct (log_only_same (for_each (feed (buffer i) data).1
                              (handle_line rt sid))) as (-> & -> & ->);
    [apply log_only_for_each, log_only_handle_line|done].
Qed.

Lemma onData_chunks st sid r i chunks :
  heap st !! r = Some i ->
  LF ∉ buffer i ->
  exec (for_each chunks (onData rt sid r)) st
  = exec (onData rt sid r (concat chunks)) st.
Proof.
  revert st i. induction chunks as [|d chunks IH]; intros st i Hi Hb.
  - cbn [concat for_each]. rewrite (onData_spec _ _ _ _ _ Hi).
    rewrite LineParserFacts.feed_nil by done. cbn.
    by rewrite set_buffer_same, list_insert_id, set_heap_same.
  - rewrite exec_for_each_cons. cbn [concat].
    destruct (onData_keeps st sid r i d Hi) as (Hh & _ & _).
    erewrite IH.
    + by eapply onData_app.
    + rewrite Hh. apply list_lookup_insert_eq. by eapply lookup_lt_Some.
    + cbn. apply LineParserFacts.feed_remainder_no_LF.
Qed.


(** *** The [onExit] callback *)

(** The flush of the remaining buffer is the treatment of a line. *)
Lemma flush_is_handle_line sid (b : jsstring) :
  (if nonempty (trim b) then
     let cleanBuffer := clean b in
     if nonempty cleanBuffer then processStreamEvent rt sid cleanBuffer
     else ret tt
   else ret tt) = handle_line rt sid b.
Proof.
  unfold handle_line, clean. by destruct (trim b).
Qed.

Lemma onExit_spec st sid r i exitCode :
  heap st !! r = Some i ->
  exec (onExit rt sid r exitCode) st =
  let st1 := exec (handle_line rt sid (buffer i)) st in
  {| heap := <[r := set_status (exit_status exitCode) i]> (heap st);
     processes := processes st;
     ptys := ptys st;
     ids := S (ids st1);
     dates := dates st1;
     trace := trace st1
              ++ [Emit (session_updated
                          (with_status (exit_status exitCode) (session i)));
                  Emit (message_complete sid (nanoid_nth rt (ids st1)))] |}.
Proof.
  intros Hi. unfold onExit. rewrite exec_bind.
  unfold eval, exec at 2, read_info. cbn [fst snd]. rewrite Hi.
  rewrite flush_is_handle_line, exec_bind.
  destruct (log_only_same (handle_line rt sid (buffer i)) st
              (log_only_handle_line _ _)) as (Hh & Hp & Ht).
  set (st1 := exec (handle_line rt sid (buffer i)) st) in *.
  unfold exec, bind, update_info, read_info, emit, do_action, nanoid. cbn.
  rewrite list_lookup_alter_eq, Hh, Hi.
  unfold set_trace, set_ids, set_heap. cbn. rewrite Hp, Ht.
  rewrite (alter_insert _ _ _ _ Hi). unfold exit_status.
  by rewrite <- !app_assoc.
Qed.

(** *** Delivery to a pseudo-terminal *)

Lemma pty_data_spec st pid p data :
  ptys st !! pid = Some p ->
  pty_data rt pid data st = onData rt (pty_sessionId p) (pty_info p) data st.
Proof. intros Hp. unfold pty_data, bind. by rewrite Hp. Qed.

Lemma pty_data_chunks st pid p i chunks :
  ptys st !! pid = Some p ->
  heap st !! pty_info p = Some i ->
  exec (for_each chunks (pty_data rt pid)) st
  = exec (for_each chunks (onData rt (pty_sessionId p) (pty_info p))) st.
Proof.
  revert st i. induction chunks as [|d chunks IH]; intros st i Hp Hi; [done|].
  rewrite !exec_for_each_cons.
  unfold exec at 2 4. rewrite (pty_data_spec _ _ _ _ Hp). fold (exec (onData rt (pty_sessionId p) (pty_info p) d) st).
  destruct (onData_keeps st (pty_sessionId p) (pty_info p) i d Hi)
    as (Hh & _ & Ht).
  eapply IH.
  - by rewrite Ht.
  - rewrite Hh. apply list_lookup_insert_eq. by eapply lookup_lt_Some.
Qed.

Lemma pty_exit_spec st pid p i exitCode :
  ptys st !! pid = Some p ->
  heap st !! pty_info p = Some i ->
  exec (pty_exit_with rt pid exitCode) st =
  let st1 := exec (handle_line rt (pty_sessionId p) (buffer i)) st in
  {| heap := <[pty_info p := set_status (exit_status exitCode) i]> (heap st);
     processes := processes st;
     ptys := <[pid := mark_exited exitCode p]> (ptys st);
     ids := S (ids st1);
     dates := dates st1;
     trace := trace st1
              ++ [Emit (session_updated
                          (with_status (exit_status exitCode) (session i)));
                  Emit (message_complete (pty_sessionId p)
                          (nanoid_nth rt (ids st1)))] |}.
Proof.
  intros Hp Hi. unfold pty_exit_with. rewrite exec_bind.
  unfold eval, exec at 2. cbn [fst snd]. rewrite Hp, exec_bind.
  unfold exec at 2. cbn [fst snd].
  rewrite (onExit_spec _ _ _ i); [|done].
  rewrite (alter_insert _ _ _ _ Hp).
  pose proof (log_only_handle_line (pty_sessionId p) (buffer i)) as Hlog.
  change (set_ptys ?x st) with (rebase (set_ptys x st) st).
  rewrite log_only_exec by done. done.
Qed.

(** *** The line of the final result *)

Lemma processStreamEvent_result_42 st sid :
  processStreamEvent rt sid result_42 st =
  (tt,
   {| heap := heap st; processes := processes st; ptys := ptys st;
      ids := S (ids st); dates := S (dates st);
      trace := trace st ++
        [Emit (message_received
                 {| m_id := nanoid_nth rt (ids st); m_sessionId := sid;
                    m_role := Assistant; m_content := JStr (lit "42");
                    m_timestamp := date_nth rt (dates st);
                    m_type := Text |})] |}).
Proof. vm_compute. reflexivity. Qed.


Lemma for_each_fmap {A B} (f : A -> B) (l : list A) (body : B -> M unit) :
  for_each (f <$> l) body = for_each l (fun a => body (f a)).
Proof. induction l as [|a l IH]; cbn; [done|]. by rewrite IH. Qed.

Lemma handle_line_clean sid line c cs :
  clean line = c :: cs ->
  handle_line rt sid line = processStreamEvent rt sid (c :: cs).
Proof. unfold handle_line. by intros ->. Qed.

(** The whole output of a subprocess, cut into chunks, and then its
    exit. *)
Lemma subprocess_run st pid p i chunks exitCode :
  ptys st !! pid = Some p ->
  heap st !! pty_info p = Some i ->
  LF ∉ buffer i ->
  exec (run rt ((Data pid <$> chunks) ++ [Exit pid exitCode])) st
  = exec (pty_exit_with rt pid exitCode)
      (exec (onData rt (pty_sessionId p) (pty_info p) (concat chunks)) st).
Proof.
  intros Hp Hi Hb. unfold run.
  rewrite exec_for_each_app, exec_for_each_cons, for_each_fmap.
  cbn [for_each step].
  change (for_each chunks _) with (for_each chunks (pty_data rt pid)).
  by rewrite (pty_data_chunks _ _ _ _ _ Hp Hi), (onData_chunks _ _ _ _ _ Hi Hb).
Qed.

Lemma result_42_feed (eol : jsstring) :
  eol ∈ line_ends ->
  exists lines remainder,
    feed [] (result_42 ++ eol) = (lines, remainder)
    /\ (lines = [] /\ clean remainder = result_42
        \/ (exists line, lines = [line] /\ clean line = result_42)
           /\ remainder = []).
Proof.
  intros Hin. repeat (apply elem_of_cons in Hin as [->|Hin]).
  - exists [], result_42. split; [by vm_compute|]. left. by vm_compute.
  - exists [result_42], []. split; [by vm_compute|]. right.
    split; [|done]. exists result_42. by vm_compute.
  - exists [result_42 ++ [13]], []. split; [by vm_compute|]. right.
    split; [|done]. exists (result_42 ++ [13]). by vm_compute.
  - by apply elem_of_nil in Hin.
Qed.

Lemma result_42_run st pid p i chunks eol :
  ptys st !! pid = Some p ->
  heap st !! pty_info p = Some i ->
  buffer i = [] ->
  eol ∈ line_ends ->
  concat chunks = result_42 ++ eol ->
  let st' := exec (run rt ((Data pid <$> chunks) ++ [Exit pid 0%Z])) st in
  trace st' = trace st ++
    [Emit (message_received (final_message rt st (pty_sessionId p)));
     Emit (session_updated (with_status Idle (session i)));
     Emit (message_complete (pty_sessionId p) (nanoid_nth rt (S (ids st))))]
  /\ processes st' = processes st
  /\ heap st' !! pty_info p
     = Some {| process := process i; session := with_status Idle (session i);
               buffer := buffer (set_buffer (feed [] (result_42 ++ eol)).2 i) |}.
Proof.
  intros Hp Hi Hb Heol Hcat st'. unfold st'.
  pose proof (lookup_lt_Some _ _ _ Hi) as Hlt.
  rewrite (subprocess_run _ _ _ _ _ _ Hp Hi) by (rewrite Hb; apply not_elem_of_nil).
  rewrite Hcat.
  destruct (onData_keeps st (pty_sessionId p) (pty_info p) i
              (result_42 ++ eol) Hi) as (Hh & Hpr & Hpt).
  rewrite (onData_spec _ _ _ _ _ Hi) in *. rewrite Hb in *.
  destruct (result_42_feed eol Heol) as (lines & remainder & Hfeed & Hcase).
  rewrite Hfeed in *. cbn [fst snd] in *.
  set (st1 := exec (for_each lines (handle_line rt (pty_sessionId p)))
                (set_heap (<[pty_info p:=set_buffer remainder i]> (heap st)) st))
    in *.
  erewrite pty_exit_spec; [|by rewrite Hpt|by rewrite Hh, list_lookup_insert_eq].
  cbn zeta. cbn [heap processes trace buffer set_buffer].
  rewrite Hh, Hpr, list_insert_insert_eq, list_lookup_insert_eq by done.
  split_and!; [|done|done].
  unfold st1. clear st1 Hh Hpr Hpt.
  destruct Hcase as [[-> Hclean]|[(line & -> & Hclean) ->]].
  - cbn [for_each]. unfold exec at 2 4, ret. cbn [snd].
    rewrite (handle_line_clean _ _ _ _ Hclean).
    unfold exec. rewrite processStreamEvent_result_42. cbn.
    by rewrite <- app_assoc.
  - assert (Hempty : forall s, handle_line rt (pty_sessionId p) [] s = (tt, s))
      by done.
    unfold exec. cbn [for_each]. unfold bind, ret.
    rewrite (handle_line_clean _ _ _ _ Hclean).
    rewrite processStreamEvent_result_42, Hempty. cbn.
    by rewrite <- app_assoc.
Qed.


(** *** Reading the registry *)

Lemma getSession_registered st sid r i :
  Map_get (processes st) sid = Some r ->
  heap st !! r = Some i ->
  getSession st sid = Some (session i).
Proof. intros Hget Hi. unfold getSession. rewrite Hget. cbn. by rewrite Hi. Qed.

Lemma getSession_session st sid r i s :
  Map_get (processes st) sid = Some r ->
  heap st !! r = Some i ->
  session i = s ->
  getSession st sid = Some s.
Proof. intros Hget Hi <-. by eapply getSession_registered. Qed.

Lemma getSession_unregistered st sid :
  Map_get (processes st) sid = None -> getSession st sid = None.
Proof. intros Hget. unfold getSession. by rewrite Hget. Qed.

Lemma live_ptys_spawn st st' sid r :
  ptys st' = ptys st ++ [{| pty_sessionId := sid; pty_info := r;
                            pty_killed := false; pty_exit := None |}] ->
  live_ptys st' sid = live_ptys st sid ++ [length (ptys st)].
Proof.
  intros H. unfold live_ptys. rewrite H, imap_app, List.filter_app, fmap_app.
  f_equal. cbn. rewrite bool_decide_eq_true_2 by done. cbn.
  by rewrite Nat.add_0_r.
Qed.

(** ** The stated properties *)

(** C1, as the code has it. [sendMessage] has no guard for a session
    that is already active: on a registered session whose status is
    Active and whose subprocess is live, a send whose spawn succeeds is
    not rejected; it spawns one more subprocess and stores it in the
    registry entry in place of the earlier one, which stays live.  The
    entry itself refers to one subprocess at a time. *)
Theorem send_while_active_spawns_again st sid msg r i pid :
  Map_get (processes st) sid = Some r ->
  heap st !! r = Some i ->
  s_status (session i) = Active ->
  process i = Some pid ->
  pid ∈ live_ptys st sid ->
  let st' := exec (sendMessage rt sid msg Spawned) st in
  eval (sendMessage rt sid msg Spawned) st = Resolved
  /\ attached st' r = Some (length (ptys st))
  /\ live_ptys st' sid = live_ptys st sid ++ [length (ptys st)]
  /\ pid ∈ live_ptys st' sid.
Proof.
  intros Hget Hi _ _ Hlive st'. unfold st', eval, exec.
  rewrite (sendMessage_spawned _ _ _ _ _ Hget Hi). cbn [fst snd].
  pose proof (lookup_lt_Some _ _ _ Hi) as Hlt.
  split_and!.
  - done.
  - unfold attached. cbn. by rewrite list_lookup_insert_eq.
  - by eapply live_ptys_spawn.
  - erewrite live_ptys_spawn by done. apply elem_of_app. by left.
Qed.

(** C2, at the input where the code departs from it.  The line made
    of the erase-line sequence ESC [ 2 K alone is left as it is by the
    cleaning step, whose pattern only knows the final letter m; the
    line is therefore handed to the classifier, fails to decode, and
    is published as a text chunk. *)
Theorem erase_line_sequence_is_published sid st :
  clean erase_line = erase_line
  /\ handle_line rt sid erase_line st
     = (tt, set_trace
              (trace st ++ [Emit (message_stream sid (JStr erase_line) Text)])
              st).
Proof. split; by vm_compute. Qed.

(** What the cleaning step does remove: a colour sequence alone gives
    an empty line, which is not classified. *)
Lemma sgr_only_line_is_dropped sid st :
  clean sgr_reset = [] /\ handle_line rt sid sgr_reset st = (tt, st).
Proof. split; by vm_compute. Qed.

(** The line is trimmed before the sequences are removed, so white
    space between two colour sequences survives and is published. *)
Lemma sgr_with_inner_space_is_published sid st :
  clean (sgr_reset ++ [32] ++ sgr_reset) = [32]
  /\ handle_line rt sid (sgr_reset ++ [32] ++ sgr_reset) st
     = (tt, set_trace
              (trace st ++ [Emit (message_stream sid (JStr [32]) Text)]) st).
Proof. split; by vm_compute. Qed.

(** C4. A registered session is sent a prompt and the spawn succeeds;
    the subprocess then prints the single line
    [{"type":"result","content":"42"}] (cut into chunks in any way,
    ended or not by a line break) and exits with code 0.  From the
    spawn on, the engine publishes exactly: one message with role
    Assistant, type Text and content 42; the session with status Idle;
    one completion marker for the session, whose messageId comes from a
    further call of the identifier generator, after the one that named
    the message.  The session is then registered with status Idle. *)
Theorem result_line_then_exit_0 st sid msg r i chunks eol :
  Map_get (processes st) sid = Some r ->
  heap st !! r = Some i ->
  eol ∈ line_ends ->
  concat chunks = result_42 ++ eol ->
  let st1 := exec (sendMessage rt sid msg Spawned) st in
  let pid := length (ptys st) in
  let st2 := exec (run rt ((Data pid <$> chunks) ++ [Exit pid 0%Z])) st1 in
  trace st2 = trace st1 ++
    [Emit (message_received (final_message rt st1 sid));
     Emit (session_updated (with_status Idle (session i)));
     Emit (message_complete sid (nanoid_nth rt (S (ids st1))))]
  /\ getSession st2 sid = Some (with_status Idle (session i))
  /\ s_status <$> getSession st2 sid = Some Idle.
Proof.
  intros Hget Hi Heol Hcat st1 pid st2.
  pose proof (lookup_lt_Some _ _ _ Hi) as Hlt.
  pose proof (sendMessage_spawned st sid msg r i Hget Hi) as Hsend.
  set (p := {| pty_sessionId := sid; pty_info := r; pty_killed := false;
               pty_exit := None |}).
  set (i1 := {| process := Some pid; session := with_status Active (session i);
                buffer := [] |}).
  assert (Hp : ptys st1 !! pid = Some p).
  { unfold st1, exec. rewrite Hsend. cbn. apply list_lookup_middle. done. }
  assert (Hi1 : heap st1 !! pty_info p = Some i1).
  { unfold st1, exec. rewrite Hsend. cbn. by apply list_lookup_insert_eq. }
  assert (Hprocs : processes st1 = processes st).
  { unfold st1, exec. by rewrite Hsend. }
  destruct (result_42_run st1 pid p i1 chunks eol Hp Hi1 eq_refl Heol Hcat)
    as (Htrace & Hpr & Hheap).
  fold st2 in Htrace, Hpr, Hheap. split; [done|].
  assert (Hsession : getSession st2 sid = Some (with_status Idle (session i))).
  { eapply getSession_session; [|exact Hheap|done]. by rewrite Hpr, Hprocs. }
  split; [done|]. by rewrite Hsession.
Qed.

(** C5. Stopping a registered session whose entry holds the handle of
    a subprocess (the one spawned by its latest send) kills that
    subprocess and no other, sets the status of the session to Stopped,
    publishes the stop event and removes the session, so that
    [getSession] no longer finds it; nothing else is published.
    Stopping an identifier that is not registered changes nothing and
    publishes nothing. *)
Theorem stop_kills_and_removes st sid :
  (forall r i pid p,
     Map_get (processes st) sid = Some r ->
     heap st !! r = Some i ->
     process i = Some pid ->
     ptys st !! pid = Some p ->
     let st' := exec (stopSession sid) st in
     trace st' = trace st ++ [PtyKill pid; Emit (session_stopped sid)]
     /\ ptys st' !! pid = Some (mark_killed p)
     /\ (forall other, other <> pid -> ptys st' !! other = ptys st !! other)
     /\ (s_status ∘ session) <$> heap st' !! r = Some Stopped
     /\ getSession st' sid = None)
  /\ (Map_get (processes st) sid = None -> stopSession sid st = (tt, st)).
Proof.
  split; [|apply stopSession_unknown].
  intros r i pid p Hget Hi Hpid Hp st'. unfold st', exec.
  rewrite (stopSession_known _ _ _ _ Hget Hi), Hpid.
  cbn [snd trace ptys heap app].
  pose proof (lookup_lt_Some _ _ _ Hi). split_and!.
  - done.
  - by rewrite list_lookup_alter_eq, Hp.
  - intros other Hne. by apply list_lookup_alter_ne.
  - by rewrite list_lookup_insert_eq.
  - apply getSession_unregistered. cbn. apply Map_get_delete_eq.
Qed.

(** C6. On a registered session, [sendMessage] first marks the session
    Active and publishes it, then publishes the prompt as a message of
    role User, and only then calls [ptySpawn]; no other spawn follows.
    The subprocess it spawns did not exist before, so none of its
    output can have been handled earlier.  When the spawn succeeds the
    session is left Active. *)
Theorem send_publishes_prompt_first st sid msg outcome r i :
  Map_get (processes st) sid = Some r ->
  heap st !! r = Some i ->
  let st' := exec (sendMessage rt sid msg outcome) st in
  (exists later,
     trace st' = trace st ++
       [Emit (session_updated (with_status Active (session i)));
        Emit (message_received (user_message rt st sid msg));
        PtySpawn (spawn_request rt msg (s_worktreePath (session i))) outcome]
       ++ later
     /\ forall request o, PtySpawn request o ∉ later)
  /\ (forall data, pty_data rt (length (ptys st)) data st = (tt, st))
  /\ (outcome = Spawned ->
      getSession st' sid = Some (with_status Active (session i))
      /\ s_status <$> getSession st' sid = Some Active).
Proof.
  intros Hget Hi st'. pose proof (lookup_lt_Some _ _ _ Hi) as Hlt.
  split_and!.
  - unfold st', exec. destruct outcome as [|thrown].
    + rewrite (sendMessage_spawned _ _ _ _ _ Hget Hi). cbn.
      exists []. split; [done|]. intros ? ?. apply not_elem_of_nil.
    + rewrite (sendMessage_spawn_throws _ _ _ _ _ _ Hget Hi). cbn.
      eexists [_; _]. split; [done|].
      intros ? ? [?|[?|?%elem_of_nil]%elem_of_cons]%elem_of_cons; done.
  - intros data. unfold pty_data, bind.
    by rewrite (lookup_ge_None_2 (ptys st) (length (ptys st))).
  - intros ->. unfold st', exec.
    rewrite (sendMessage_spawned _ _ _ _ _ Hget Hi). cbn [snd].
    match goal with
    | |- ?G /\ _ => assert (Hsession : G)
    end.
    { eapply getSession_session;
        [done|cbn; by apply list_lookup_insert_eq|done]. }
    split; [done|]. by rewrite Hsession.
Qed.

(** C7. A line on which [JSON.parse] throws is published as exactly
    one stream chunk that carries the text of the line and the type
    Text; the classifier returns normally and changes nothing else. *)
Theorem decode_failure_publishes_text_chunk st sid line :
  line <> [] ->
  JSON_parse line = None ->
  processStreamEvent rt sid line st
  = (tt, set_trace
           (trace st ++ [Emit (message_stream sid (JStr line) Text)]) st).
Proof.
  intros _ Hparse. unfold processStreamEvent. by rewrite Hparse.
Qed.


(** C9. The lines [123] and ["hello"] decode (to a number and to a
    string), have no [type] member, and are dropped: the classifier
    publishes nothing and changes nothing.  The text [hello] without
    the quotes does not decode and is published as a text chunk. *)
Theorem decoded_scalars_are_dropped st sid :
  (is_Some (JSON_parse (lit "123"))
   /\ processStreamEvent rt sid (lit "123") st = (tt, st))
  /\ (is_Some (JSON_parse (dq "'hello'"))
      /\ processStreamEvent rt sid (dq "'hello'") st = (tt, st))
  /\ (JSON_parse (lit "hello") = None
      /\ processStreamEvent rt sid (lit "hello") st
         = (tt, set_trace
                  (trace st
                   ++ [Emit (message_stream sid (JStr (lit "hello")) Text)])
                  st)).
Proof.
  split_and!; try by vm_compute.
  all: vm_compute; eauto.
Qed.


End Facts.


(** ** Instances on a concrete manager *)

Lemma send_while_active_spawns_again_witness :
  let send := sendMessage demo_runtime demo_session (lit "second") Spawned in
  eval send demo_active = Resolved
  /\ attached (exec send demo_active) 0 = Some (length (ptys demo_active))
  /\ live_ptys (exec send demo_active) demo_session
     = live_ptys demo_active demo_session ++ [length (ptys demo_active)]
  /\ 0%nat ∈ live_ptys (exec send demo_active) demo_session.
Proof.
  apply (send_while_active_spawns_again demo_runtime demo_active demo_session
           (lit "second") 0%nat demo_active_info 0%nat).
  - by vm_compute.
  - by vm_compute.
  - by vm_compute.
  - by vm_compute.
  - vm_compute. left.
Defined.

(** C1 as stated fails: the session of [demo_active] is
    Active and its subprocess 0 is live, yet a further send is not
    rejected and a second live subprocess exists for the session
    afterwards. *)
Lemma send_while_active_is_not_rejected :
  let send := sendMessage demo_runtime demo_session (lit "second") Spawned in
  (s_status <$> getSession demo_active demo_session = Some Active
   /\ attached demo_active 0 = Some 0%nat
   /\ live_ptys demo_active demo_session = [0%nat])
  /\ eval send demo_active = Resolved
  /\ live_ptys (exec send demo_active) demo_session = [0%nat; 1%nat].
Proof. by vm_compute. Qed.

Lemma result_line_then_exit_0_witness :
  let chunks := [dq "{'type':'res"; dq "ult','content':'42'}" ++ [LF]] in
  let st1 := exec (sendMessage demo_runtime demo_session (lit "6 x 7?") Spawned)
               demo_idle in
  let pid := length (ptys demo_idle) in
  let st2 := exec (run demo_runtime ((Data pid <$> chunks) ++ [Exit pid 0%Z]))
               st1 in
  trace st2 = trace st1 ++
    [Emit (message_received (final_message demo_runtime st1 demo_session));
     Emit (session_updated (with_status Idle (session demo_idle_info)));
     Emit (message_complete demo_session
             (nanoid_nth demo_runtime (S (ids st1))))]
  /\ getSession st2 demo_session
     = Some (with_status Idle (session demo_idle_info))
  /\ s_status <$> getSession st2 demo_session = Some Idle.
Proof.
  apply (result_line_then_exit_0 demo_runtime demo_idle demo_session
           (lit "6 x 7?") 0%nat demo_idle_info
           [dq "{'type':'res"; dq "ult','content':'42'}" ++ [LF]] [LF]).
  - by vm_compute.
  - by vm_compute.
  - vm_compute. right. left.
  - by vm_compute.
Defined.

Lemma stop_kills_and_removes_witness :
  (let st' := exec (stopSession demo_session) demo_active in
   trace st' = trace demo_active
               ++ [PtyKill 0; Emit (session_stopped demo_session)]
   /\ ptys st' !! 0%nat = Some (mark_killed demo_pty)
   /\ (forall other,
         other <> 0%nat -> ptys st' !! other = ptys demo_active !! other)
   /\ (s_status ∘ session) <$> heap st' !! 0%nat = Some Stopped
   /\ getSession st' demo_session = None)
  /\ stopSession (lit "nobody") demo_active = (tt, demo_active).
Proof.
  split.
  - apply (proj1 (stop_kills_and_removes demo_active demo_session)
             0%nat demo_active_info 0%nat demo_pty); by vm_compute.
  - apply (proj2 (stop_kills_and_removes demo_active (lit "nobody"))).
    by vm_compute.
Defined.

(** C5 as stated fails.  In [demo_replaced] the session is registered
    and has one live subprocess, 0, spawned by its first send; its
    entry holds the handle of subprocess 1, spawned by its second send,
    which has exited.  Stopping the session calls [kill] on
    subprocess 1 only: subprocess 0 is live afterwards, and what it
    prints is still published. *)
Lemma stop_leaves_replaced_subprocess_alive :
  let st := demo_replaced in
  let st' := exec (stopSession demo_session) st in
  (s_status <$> getSession st demo_session = Some Idle
   /\ attached st 0 = Some 1%nat
   /\ live_ptys st demo_session = [0%nat])
  /\ trace st' = trace st ++ [PtyKill 1; Emit (session_stopped demo_session)]
  /\ getSession st' demo_session = None
  /\ live_ptys st' demo_session = [0%nat]
  /\ trace (exec (run demo_runtime [Data 0 (result_42 ++ [LF])]) st')
     = trace st'
       ++ [Emit (message_received (final_message demo_runtime st' demo_session))].
Proof. by vm_compute. Qed.

Lemma send_publishes_prompt_first_witness :
  let st' := exec (sendMessage demo_runtime demo_session (lit "hi") Spawned)
               demo_idle in
  (exists later,
     trace st' = trace demo_idle ++
       [Emit (session_updated (with_status Active (session demo_idle_info)));
        Emit (message_received
                (user_message demo_runtime demo_idle demo_session (lit "hi")));
        PtySpawn (spawn_request demo_runtime (lit "hi")
                    (s_worktreePath (session demo_idle_info))) Spawned]
       ++ later
     /\ forall request o, PtySpawn request o ∉ later)
  /\ (forall data,
        pty_data demo_runtime (length (ptys demo_idle)) data demo_idle
        = (tt, demo_idle))
  /\ (Spawned = Spawned ->
      getSession st' demo_session
      = Some (with_status Active (session demo_idle_info))
      /\ s_status <$> getSession st' demo_session = Some Active).
Proof.
  apply (send_publishes_prompt_first demo_runtime demo_idle demo_session
           (lit "hi") Spawned 0%nat demo_idle_info); by vm_compute.
Defined.

Lemma decode_failure_publishes_text_chunk_witness :
  processStreamEvent demo_runtime demo_session (lit "hello world") demo_active
  = (tt, set_trace
           (trace demo_active
            ++ [Emit (message_stream demo_session
                        (JStr (lit "hello world")) Text)])
           demo_active).
Proof.
  apply (decode_failure_publishes_text_chunk demo_runtime demo_active
           demo_session (lit "hello world")); by vm_compute.
Defined.





End EngineFacts.

(** ** Invariants of runs *)

Module RunInvariants.

Import EngineFacts.

Section Invariants.

Variable rt : Runtime.

Lemma refs_ok_intro st :
  (forall e, e ∈ processes st -> (e.2 < length (heap st))%nat) ->
  (forall p, p ∈ ptys st -> (pty_info p < length (heap st))%nat) ->
  refs_ok st.
Proof.
  intros H1 H2. split; apply List.Forall_forall; intros ? ?%list_elem_of_In; auto.
Qed.

Lemma refs_ok_processes st e :
  refs_ok st -> e ∈ processes st -> (e.2 < length (heap st))%nat.
Proof.
  intros [H _] He%list_elem_of_In. by eapply (proj1 (List.Forall_forall _ _) H).
Qed.

Lemma refs_ok_ptys st p :
  refs_ok st -> p ∈ ptys st -> (pty_info p < length (heap st))%nat.
Proof.
  intros [_ H] Hp%list_elem_of_In. by eapply (proj1 (List.Forall_forall _ _) H).
Qed.

Lemma Map_get_elem_of {V} (m : list (jsstring * V)) k v :
  Map_get m k = Some v -> (k, v) ∈ m.
Proof.
  unfold Map_get. intros ([k' v'] & Hfind & ->)%fmap_Some.
  apply find_some in Hfind as [Hin Hk]. cbn in Hk.
  apply bool_decide_eq_true in Hk as <-. by apply list_elem_of_In.
Qed.

Lemma Map_set_elem_of {V} (m : list (jsstring * V)) k v e :
  e ∈ Map_set k v m -> e ∈ m \/ e = (k, v).
Proof.
  induction m as [|e' m IH]; cbn.
  - intros ->%list_elem_of_singleton. by right.
  - case_bool_decide.
    + intros [->|?]%elem_of_cons; [by right|]. left. by right.
    + intros [->|?]%elem_of_cons; [left; left|].
      destruct IH as [?|?]; [done|left; by right|by right].
Qed.

(** In a state whose references are allocated, a registered session
    has its object. *)
Lemma registered_info st sid r :
  refs_ok st -> Map_get (processes st) sid = Some r ->
  is_Some (heap st !! r).
Proof.
  intros Hok Hget. apply lookup_lt_is_Some.
  by apply (refs_ok_processes st (sid, r) Hok), Map_get_elem_of.
Qed.

Lemma pty_info_allocated st pid p :
  refs_ok st -> ptys st !! pid = Some p -> is_Some (heap st !! pty_info p).
Proof.
  intros Hok Hp. apply lookup_lt_is_Some.
  by eapply refs_ok_ptys, list_elem_of_lookup_2.
Qed.

Lemma refs_ok_startSession st worktreeId worktreePath :
  refs_ok st -> refs_ok (exec (startSession rt worktreeId worktreePath) st).
Proof.
  intros Hok. apply refs_ok_intro; unfold exec; cbn; rewrite length_app; cbn.
  - intros e [He| ->]%Map_set_elem_of; cbn; [|lia].
    pose proof (refs_ok_processes _ _ Hok He). lia.
  - intros p Hp. pose proof (refs_ok_ptys _ _ Hok Hp). lia.
Qed.

Lemma refs_ok_sendMessage st sid msg outcome :
  refs_ok st -> refs_ok (exec (sendMessage rt sid msg outcome) st).
Proof.
  intros Hok. destruct (Map_get (processes st) sid) as [r|] eqn:Hget.
  - destruct (registered_info _ _ _ Hok Hget) as [i Hi].
    pose proof (lookup_lt_Some _ _ _ Hi) as Hlt.
    unfold exec. destruct outcome as [|thrown].
    + rewrite (sendMessage_spawned _ _ _ _ _ _ Hget Hi).
      apply refs_ok_intro; cbn; rewrite length_insert.
      * intros e He. by apply refs_ok_processes.
      * intros p [Hp| ->%list_elem_of_singleton]%elem_of_app; [|done].
        by apply refs_ok_ptys.
    + rewrite (sendMessage_spawn_throws _ _ _ _ _ _ _ Hget Hi).
      apply refs_ok_intro; cbn; rewrite length_insert.
      * intros e He. by apply refs_ok_processes.
      * intros p Hp. by apply refs_ok_ptys.
  - unfold exec. by rewrite sendMessage_unknown.
Qed.

Lemma elem_of_alter_inv {A} (f : A -> A) (l : list A) (i : nat) (x : A) :
  x ∈ alter f i l -> x ∈ l \/ exists y, y ∈ l /\ x = f y.
Proof.
  intros (j & Hj)%list_elem_of_lookup. rewrite list_lookup_alter in Hj.
  case_decide; subst.
  - apply fmap_Some in Hj as (y & Hy & ->). right. exists y.
    split; [|done]. by eapply list_elem_of_lookup_2.
  - left. by eapply list_elem_of_lookup_2.
Qed.

Lemma refs_ok_stopSession st sid :
  refs_ok st -> refs_ok (exec (stopSession sid) st).
Proof.
  intros Hok. destruct (Map_get (processes st) sid) as [r|] eqn:Hget.
  - unfold exec. rewrite (stopSession_registered _ _ _ Hget).
    apply refs_ok_intro; cbn; rewrite length_alter.
    + intros e [_ He]%Map_delete_elem_of. by apply refs_ok_processes.
    + intros p Hp. destruct (attached st r); [|by apply refs_ok_ptys].
      apply elem_of_alter_inv in Hp as [Hp|(q & Hq & ->)];
        [|cbn [pty_info mark_killed]]; by apply refs_ok_ptys.
  - unfold exec. by rewrite stopSession_unknown.
Qed.

Lemma refs_ok_for_each {A} (l : list A) (body : A -> M unit) st :
  (forall a s, refs_ok s -> refs_ok (exec (body a) s)) ->
  refs_ok st -> refs_ok (exec (for_each l body) st).
Proof.
  intros Hbody. revert st. induction l as [|a l IH]; intros st Hok; [done|].
  rewrite exec_for_each_cons. by apply IH, Hbody.
Qed.

Lemma refs_ok_cleanup st : refs_ok st -> refs_ok (exec cleanup st).
Proof.
  intros Hok.
  change (exec cleanup st)
    with (exec (for_each (Map_keys (processes st)) stopSession) st).
  apply refs_ok_for_each; [|done]. intros a s. apply refs_ok_stopSession.
Qed.

Lemma refs_ok_pty_data st pid data :
  refs_ok st -> refs_ok (exec (pty_data rt pid data) st).
Proof.
  intros Hok. destruct (ptys st !! pid) as [p|] eqn:Hp.
  - destruct (pty_info_allocated _ _ _ Hok Hp) as [i Hi].
    unfold exec. rewrite (pty_data_spec _ _ _ _ _ Hp).
    destruct (onData_keeps rt st (pty_sessionId p) (pty_info p) i data Hi)
      as (Hh & Hpr & Hpt).
    apply refs_ok_intro; unfold exec in *; rewrite Hh, length_insert.
    + rewrite Hpr. intros e He. by apply refs_ok_processes.
    + rewrite Hpt. intros q Hq. by apply refs_ok_ptys.
  - unfold exec, pty_data, bind. by rewrite Hp.
Qed.

Lemma refs_ok_pty_exit st pid exitCode :
  refs_ok st -> refs_ok (exec (pty_exit_with rt pid exitCode) st).
Proof.
  intros Hok. destruct (ptys st !! pid) as [p|] eqn:Hp.
  - destruct (pty_info_allocated _ _ _ Hok Hp) as [i Hi].
    rewrite (pty_exit_spec _ _ _ _ _ _ Hp Hi).
    apply refs_ok_intro; cbn; rewrite length_insert.
    + intros e He. by apply refs_ok_processes.
    + intros q Hq. rewrite list_insert_alter in Hq.
      apply elem_of_alter_inv in Hq as [Hq|(q' & Hq' & ->)].
      * by apply refs_ok_ptys.
      * cbn. by eapply refs_ok_ptys, list_elem_of_lookup_2.
  - unfold exec, pty_exit_with, bind. by rewrite Hp.
Qed.

Lemma refs_ok_step st input :
  refs_ok st -> refs_ok (exec (step rt input) st).
Proof.
  intros Hok. destruct input; cbn [step].
  - rewrite exec_bind. by apply refs_ok_startSession.
  - rewrite exec_bind. by apply refs_ok_sendMessage.
  - by apply refs_ok_stopSession.
  - by apply refs_ok_cleanup.
  - by apply refs_ok_pty_data.
  - by apply refs_ok_pty_exit.
Qed.

(** Every state a manager can reach has its references allocated, so a
    registered session always has its object. *)
Lemma refs_ok_run inputs : refs_ok (exec (run rt inputs) empty_manager).
Proof.
  apply refs_ok_for_each; [intros; by apply refs_ok_step|].
  split; apply List.Forall_nil.
Qed.


(** *** The keys of the registry stay distinct

    A [Map] holds one entry per key; the registry as a list keeps that
    property, so that deleting a key removes exactly its entry. *)

Lemma Map_set_keys {V} (m : list (jsstring * V)) k v x :
  x ∈ Map_keys (Map_set k v m) -> x ∈ Map_keys m \/ x = k.
Proof.
  unfold Map_keys. intros (e & -> & [He| ->]%Map_set_elem_of)%list_elem_of_fmap.
  - left. by apply list_elem_of_fmap_2.
  - by right.
Qed.

Lemma NoDup_Map_set {V} (m : list (jsstring * V)) k v :
  NoDup (Map_keys m) -> NoDup (Map_keys (Map_set k v m)).
Proof.
  unfold Map_keys. induction m as [|[k' v'] m IH]; cbn.
  - intros _. apply NoDup_singleton.
  - intros [Hk' Hm]%list.NoDup_cons. case_bool_decide as Hk; cbn in *.
    + subst. by apply list.NoDup_cons.
    + apply list.NoDup_cons. split; [|by apply IH].
      intros [?|?]%(Map_set_keys m k v); [done|congruence].
Qed.

Lemma NoDup_Map_delete {V} (m : list (jsstring * V)) k :
  NoDup (Map_keys m) -> NoDup (Map_keys (Map_delete k m)).
Proof.
  unfold Map_keys, Map_delete. induction m as [|[k' v'] m IH]; cbn; [done|].
  intros [Hk' Hm]%list.NoDup_cons. case_bool_decide; cbn; [by apply IH|].
  apply list.NoDup_cons. split; [|by apply IH].
  intros (e & He1 & He2)%list_elem_of_fmap.
  apply (Map_delete_elem_of m k e) in He2 as [_ He2].
  apply Hk'. rewrite He1. by apply list_elem_of_fmap_2.
Qed.

Lemma keys_unique_stopSession st sid :
  keys_unique st -> keys_unique (exec (stopSession sid) st).
Proof.
  unfold keys_unique. intros Hk.
  destruct (Map_get (processes st) sid) as [r|] eqn:Hget; unfold exec.
  - rewrite (stopSession_registered _ _ _ Hget). cbn.
    by apply NoDup_Map_delete.
  - by rewrite stopSession_unknown.
Qed.

Lemma keys_unique_for_each {A} (l : list A) (body : A -> M unit) st :
  (forall a s, keys_unique s -> keys_unique (exec (body a) s)) ->
  keys_unique st -> keys_unique (exec (for_each l body) st).
Proof.
  intros Hbody. revert st. induction l as [|a l IH]; intros st Hok; [done|].
  rewrite exec_for_each_cons. by apply IH, Hbody.
Qed.

Lemma keys_unique_step st input :
  refs_ok st -> keys_unique st -> keys_unique (exec (step rt input) st).
Proof.
  intros Hok Hk. destruct input as [w p|sid msg outcome|sid| |pid data|pid code];
    cbn [step].
  - rewrite exec_bind. unfold keys_unique, exec. cbn.
    by apply NoDup_Map_set.
  - rewrite exec_bind. unfold keys_unique, exec.
    destruct (Map_get (processes st) sid) as [r|] eqn:Hget.
    + destruct (registered_info _ _ _ Hok Hget) as [i Hi].
      destruct outcome as [|thrown].
      * by rewrite (sendMessage_spawned _ _ _ _ _ _ Hget Hi).
      * by rewrite (sendMessage_spawn_throws _ _ _ _ _ _ _ Hget Hi).
    + by rewrite sendMessage_unknown.
  - by apply keys_unique_stopSession.
  - change (exec cleanup st)
      with (exec (for_each (Map_keys (processes st)) stopSession) st).
    apply keys_unique_for_each; [|done].
    intros a s. apply keys_unique_stopSession.
  - unfold keys_unique. destruct (ptys st !! pid) as [q|] eqn:Hq.
    + destruct (pty_info_allocated _ _ _ Hok Hq) as [i Hi].
      unfold exec. rewrite (pty_data_spec _ _ _ _ _ Hq).
      destruct (onData_keeps rt st (pty_sessionId q) (pty_info q) i data Hi)
        as (_ & Hpr & _).
      unfold exec in Hpr. by rewrite Hpr.
    + unfold exec, pty_data, bind. by rewrite Hq.
  - unfold keys_unique. destruct (ptys st !! pid) as [q|] eqn:Hq.
    + destruct (pty_info_allocated _ _ _ Hok Hq) as [i Hi].
      by rewrite (pty_exit_spec _ _ _ _ _ _ Hq Hi).
    + unfold exec, pty_exit_with, bind. by rewrite Hq.
Qed.

(** Every state a manager can reach is well formed. *)
Lemma reachable_well_formed inputs :
  refs_ok (exec (run rt inputs) empty_manager)
  /\ keys_unique (exec (run rt inputs) empty_manager).
Proof.
  unfold run.
  assert (Hgen : forall st, refs_ok st /\ keys_unique st ->
            refs_ok (exec (for_each inputs (step rt)) st)
            /\ keys_unique (exec (for_each inputs (step rt)) st)).
  { induction inputs as [|a l IH]; intros st [Hok Hk]; [done|].
    rewrite exec_for_each_cons. apply IH.
    split; [by apply refs_ok_step | by apply keys_unique_step]. }
  apply Hgen. split; [split; apply List.Forall_nil | apply NoDup_nil_2].
Qed.

End Invariants.

End RunInvariants.

Module TextFacts.

Lemma split_lines_join (s : jsstring) :
  join_lines (List.removelast (split_lines s)) (List.last (split_lines s) []) = s.
Proof.
  unfold join_lines. induction s as [|c s IH]; [done|].
  pose proof (LineParserFacts.split_lines_nonempty s) as Hne.
  cbn [split_lines]. destruct (N.eqb_spec c LF) as [->|Hc].
  - destruct (split_lines s) as [|p ps] eqn:E; [done|].
    change (List.removelast ([] :: p :: ps)) with ([] :: List.removelast (p :: ps)).
    change (List.last ([] :: p :: ps) []) with (List.last (p :: ps) []).
    cbn [fmap list_fmap concat app]. by rewrite IH.
  - destruct (split_lines s) as [|p ps] eqn:E; [done|].
    destruct ps as [|q qs].
    + cbn in *. by rewrite IH.
    + change (List.removelast ((c :: p) :: q :: qs))
        with ((c :: p) :: List.removelast (q :: qs)).
      change (List.last ((c :: p) :: q :: qs) []) with (List.last (q :: qs) []).
      change (List.removelast (p :: q :: qs))
        with (p :: List.removelast (q :: qs)) in IH.
      change (List.last (p :: q :: qs) []) with (List.last (q :: qs) []) in IH.
      cbn [fmap list_fmap concat app] in *. by rewrite IH.
Qed.

(** X8.  The line parser loses nothing and reorders nothing: the
    complete lines, each followed by its line feed, and then the new
    buffer, are the old buffer followed by the data. *)
Theorem feed_loses_nothing (buffer data : jsstring) :
  join_lines (feed buffer data).1 (feed buffer data).2 = buffer ++ data.
Proof.
  unfold feed. rewrite LineParserFacts.pop_or_empty_last. cbn [fst snd].
  apply split_lines_join.
Qed.

Lemma removelast_elem_of {A} (l : list A) (x : A) :
  x ∈ List.removelast l -> x ∈ l.
Proof.
  induction l as [|y l IH]; [done|]. destruct l as [|z l]; cbn.
  - by intros ?%elem_of_nil.
  - intros [->|?]%elem_of_cons; [left|right; by apply IH].
Qed.

Lemma feed_lines_no_LF (buffer data line : jsstring) :
  line ∈ (feed buffer data).1 -> LF ∉ line.
Proof.
  unfold feed. rewrite LineParserFacts.pop_or_empty_last. cbn [fst].
  intros ?%removelast_elem_of. by eapply LineParserFacts.split_lines_no_LF.
Qed.

(** *** trim *)

Lemma trimStart_all_spaces s : all_spaces s = true -> trimStart s = [].
Proof.
  induction s as [|c s IH]; [done|]. cbn.
  intros [-> ?]%andb_true_iff. by apply IH.
Qed.

Lemma trim_all_spaces s : all_spaces s = true -> trim s = [].
Proof. intros H. unfold trim. by rewrite trimStart_all_spaces. Qed.

Lemma trimStart_app_spaces ws s :
  all_spaces ws = true -> trimStart (ws ++ s) = trimStart s.
Proof.
  induction ws as [|c ws IH]; [done|]. cbn.
  intros [-> ?]%andb_true_iff. by apply IH.
Qed.

Lemma all_spaces_rev ws : all_spaces (rev ws) = all_spaces ws.
Proof.
  unfold all_spaces. induction ws as [|c ws IH]; [done|].
  cbn. rewrite forallb_app, IH. cbn. by rewrite andb_true_r, andb_comm.
Qed.

Lemma trimEnd_app_spaces s ws :
  all_spaces ws = true -> trimEnd (s ++ ws) = trimEnd s.
Proof.
  intros H. unfold trimEnd. rewrite rev_app_distr, trimStart_app_spaces; [done|].
  by rewrite all_spaces_rev.
Qed.

Lemma trimEnd_snoc s c : is_space c = false -> trimEnd (s ++ [c]) = s ++ [c].
Proof.
  intros Hc. unfold trimEnd. rewrite rev_app_distr. cbn. rewrite Hc.
  cbn. by rewrite rev_involutive.
Qed.

(** White space around a text that starts and ends with something else
    is what [trim] removes. *)
Lemma trim_padded ws1 a middle z ws2 :
  all_spaces ws1 = true -> all_spaces ws2 = true ->
  is_space a = false -> is_space z = false ->
  trim (ws1 ++ (a :: middle ++ [z]) ++ ws2) = a :: middle ++ [z].
Proof.
  intros H1 H2 Ha Hz. unfold trim.
  rewrite trimStart_app_spaces by done. cbn [app trimStart]. rewrite Ha.
  rewrite (app_comm_cons _ _ a), trimEnd_app_spaces by done.
  rewrite app_comm_cons. by apply trimEnd_snoc.
Qed.

(** *** The clean-up pattern *)

Lemma replace_sgr_skip n s : replace_sgr n s = replace_sgr 0 (drop n s).
Proof.
  revert n. induction s as [|c s IH]; intros [|n]; try done.
  cbn [replace_sgr drop]. apply IH.
Qed.

Lemma params_m_length_sgr params rest :
  all_params params = true ->
  params_m_length (params ++ 109 :: rest) = Some (S (length params)).
Proof.
  induction params as [|c params IH]; [done|]. cbn.
  intros [Hc Hp]%andb_true_iff.
  destruct (N.eqb_spec c 109) as [->|_]; [done|].
  rewrite Hc, IH by done. done.
Qed.

Lemma drop_past_params (params rest : jsstring) (c : char16) :
  drop (S (length params)) (params ++ c :: rest) = rest.
Proof. induction params as [|p params IH]; [done|]. apply IH. Qed.

Lemma strip_ansi_sgr params rest :
  all_params params = true ->
  strip_ansi (sgr params ++ rest) = strip_ansi rest.
Proof.
  intros Hp. unfold strip_ansi, sgr. cbn [app replace_sgr].
  change (ESC =? ESC) with true. cbn [sgr_tail_length]. change (91 =? 91) with true.
  rewrite <- app_assoc. cbn [app]. rewrite params_m_length_sgr by done.
  cbn [fmap option_fmap option_map]. rewrite replace_sgr_skip.
  cbn [drop]. by rewrite drop_past_params.
Qed.

Lemma strip_ansi_sgrs (paramss : list jsstring) rest :
  forallb all_params paramss = true ->
  strip_ansi (concat (sgr <$> paramss) ++ rest) = strip_ansi rest.
Proof.
  induction paramss as [|p ps IH]; [done|]. cbn [forallb fmap list_fmap concat].
  intros [Hp Hps]%andb_true_iff.
  rewrite <- app_assoc, strip_ansi_sgr by done. by apply IH.
Qed.

Lemma strip_ansi_no_ESC s : ESC ∉ s -> strip_ansi s = s.
Proof.
  unfold strip_ansi. induction s as [|c s IH]; [done|].
  intros [Hc Hs]%not_elem_of_cons. cbn.
  destruct (N.eqb_spec c ESC) as [->|_]; [done|]. by rewrite IH.
Qed.

Lemma replace_sgr_sublist n s : replace_sgr n s `sublist_of` s.
Proof.
  revert n. induction s as [|c s IH]; intros n; [done|].
  cbn. destruct n as [|n]; [|by apply sublist_cons].
  destruct (c =? ESC); [|by apply sublist_skip].
  destruct (sgr_tail_length s); [by apply sublist_cons|by apply sublist_skip].
Qed.

Lemma strip_ansi_prefix before s :
  ESC ∉ before -> strip_ansi (before ++ s) = before ++ strip_ansi s.
Proof.
  unfold strip_ansi. induction before as [|c before IH]; [done|].
  intros [Hc Hb]%not_elem_of_cons. cbn.
  destruct (N.eqb_spec c ESC) as [->|_]; [done|]. by rewrite IH.
Qed.

Lemma trimStart_sublist s : trimStart s `sublist_of` s.
Proof.
  induction s as [|c s IH]; [done|]. cbn.
  destruct (is_space c); [by apply sublist_cons|done].
Qed.

Lemma sublist_rev {A} (l1 l2 : list A) :
  l1 `sublist_of` l2 -> rev l1 `sublist_of` rev l2.
Proof.
  induction 1 as [|x l1 l2 _ IH|x l1 l2 _ IH]; cbn.
  - done.
  - by apply sublist_app.
  - by apply sublist_inserts_r.
Qed.

Lemma trim_sublist s : trim s `sublist_of` s.
Proof.
  unfold trim, trimEnd. etrans; [|apply trimStart_sublist].
  rewrite <- (rev_involutive (trimStart s)) at 2.
  apply sublist_rev, trimStart_sublist.
Qed.

Lemma concat_sgr_shape p ps :
  exists middle : jsstring,
    concat (sgr <$> (p :: ps)) = (ESC :: middle ++ [109] : jsstring).
Proof.
  revert p. induction ps as [|q qs IH]; intros p.
  - exists (91 :: p). cbn. by rewrite app_nil_r.
  - destruct (IH q) as [m Hm]. exists (91 :: p ++ [109] ++ ESC :: m).
    cbn [fmap list_fmap concat] in *. rewrite Hm. unfold sgr. cbn.
    by rewrite <- !app_assoc.
Qed.

Lemma is_space_ESC : is_space ESC = false.
Proof. done. Qed.

Lemma is_space_m : is_space 109 = false.
Proof. done. Qed.

(** A line made of colour sequences, with white space around them, is
    empty once cleaned. *)
Lemma clean_colour_only ws1 paramss ws2 :
  all_spaces ws1 = true -> all_spaces ws2 = true ->
  forallb all_params paramss = true ->
  clean (ws1 ++ concat (sgr <$> paramss) ++ ws2) = [].
Proof.
  intros H1 H2 Hp. unfold clean. destruct paramss as [|p ps].
  - cbn [fmap list_fmap concat app]. rewrite trim_all_spaces; [done|].
    unfold all_spaces in *. by rewrite forallb_app, H1, H2.
  - destruct (concat_sgr_shape p ps) as [m Hm].
    rewrite Hm, trim_padded by done.
    change (strip_ansi (ESC :: m ++ [109]))
      with (strip_ansi ((ESC :: m ++ [109]) : jsstring)). rewrite <- Hm.
    rewrite <- (app_nil_r (concat _)). by rewrite strip_ansi_sgrs.
Qed.

Lemma no_escape_spec s : no_escape s = true -> ESC ∉ s.
Proof.
  unfold no_escape. induction s as [|c s IH]; cbn.
  - intros _. apply not_elem_of_nil.
  - intros [Hc Hs]%andb_true_iff. apply not_elem_of_cons.
    split; [|by apply IH]. intros <-. by rewrite N.eqb_refl in Hc.
Qed.

Lemma no_escape_sublist s s' :
  s' `sublist_of` s -> no_escape s = true -> no_escape s' = true.
Proof.
  unfold no_escape. induction 1 as [|x l1 l2 _ IH|x l1 l2 _ IH]; cbn; [done| |].
  - intros [-> ?]%andb_true_iff. by rewrite IH.
  - intros [_ ?]%andb_true_iff. by apply IH.
Qed.

(** X10.  Every colour sequence ESC [ params m is removed by the
    cleaning step, wherever it stands: the text before it, when it holds
    no ESC, is kept as it is, and the cleaning goes on after the
    sequence. *)
Theorem colour_sequence_is_removed before params after :
  no_escape before = true ->
  all_params params = true ->
  strip_ansi (before ++ sgr params ++ after) = before ++ strip_ansi after.
Proof.
  intros Hb%no_escape_spec Hp.
  by rewrite strip_ansi_prefix, strip_ansi_sgr.
Qed.

(** X11.  A line without ESC is only trimmed by the cleaning step. *)
Theorem clean_without_escape_is_trim line :
  no_escape line = true -> clean line = trim line.
Proof.
  intros H. unfold clean. apply strip_ansi_no_ESC, no_escape_spec.
  eapply no_escape_sublist; [apply trim_sublist|done].
Qed.

(** X12.  The cleaning step only deletes: the cleaned line is the line
    with some of its code units left out, the others in their order. *)
Theorem clean_only_deletes line : clean line `sublist_of` line.
Proof.
  unfold clean, strip_ansi. etrans; [apply replace_sgr_sublist|apply trim_sublist].
Qed.

End TextFacts.

Module ClassifierFacts.
Import EngineFacts.

Section Facts.
Variable rt : Runtime.

Lemma processStreamEvent_outcomes sid line st :
  processStreamEvent rt sid line st = (tt, st)
  \/ (exists chunk,
        processStreamEvent rt sid line st
        = (tt, set_trace (trace st ++ [Emit (message_stream sid chunk Text)]) st))
  \/ processStreamEvent rt sid line st = (tt, streamed_after_draw sid line st)
  \/ (exists m, classified rt st sid m
                /\ processStreamEvent rt sid line st = (tt, published m st)).
Proof.
  unfold processStreamEvent, non_json_line.
  repeat case_match; subst;
    first [ by left
          | by (right; left; eexists)
          | by (right; right; left)
          | right; right; right; eexists; split; [|reflexivity];
            repeat split; cbn; unfold classifier_kinds;
            repeat constructor ].
Qed.

End Facts.
End ClassifierFacts.

Module LedgerFacts.
Import EngineFacts RunInvariants ClassifierFacts TextFacts.

Section Facts.
Variable rt : Runtime.

(** *** Lines *)

Lemma handle_line_outcomes sid line st :
  handle_line rt sid line st = (tt, st)
  \/ (exists chunk,
        handle_line rt sid line st
        = (tt, set_trace (trace st ++ [Emit (message_stream sid chunk Text)]) st))
  \/ handle_line rt sid line st = (tt, streamed_after_draw sid (clean line) st)
  \/ (exists m, classified rt st sid m
                /\ handle_line rt sid line st = (tt, published m st)).
Proof.
  unfold handle_line. destruct (nonempty (clean line)); [|by left].
  apply processStreamEvent_outcomes.
Qed.

(** *** Identifiers *)

Lemma minted_ids_app t1 t2 : minted_ids (t1 ++ t2) = minted_ids t1 ++ minted_ids t2.
Proof. unfold minted_ids. apply bind_app. Qed.

Lemma drawn_ids_S st n :
  ids st = S n -> drawn_ids rt st = (nanoid_nth rt <$> seq 0 n) ++ [nanoid_nth rt n].
Proof. unfold drawn_ids. intros ->. by rewrite seq_S, fmap_app. Qed.

Lemma in_order_refl st : in_order rt st st.
Proof. exists [], 0%nat. rewrite app_nil_r. split_and!; [done|lia|done]. Qed.

Lemma in_order_intro st st' new k :
  trace st' = trace st ++ new ->
  ids st' = (ids st + k)%nat ->
  minted_ids new `sublist_of` (nanoid_nth rt <$> seq (ids st) k) ->
  in_order rt st st'.
Proof. intros. by exists new, k. Qed.

Lemma in_order_trans st1 st2 st3 :
  in_order rt st1 st2 -> in_order rt st2 st3 -> in_order rt st1 st3.
Proof.
  intros (n1 & k1 & Ht1 & Hi1 & Hm1) (n2 & k2 & Ht2 & Hi2 & Hm2).
  exists (n1 ++ n2), (k1 + k2)%nat. split_and!.
  - by rewrite Ht2, Ht1, app_assoc.
  - lia.
  - rewrite minted_ids_app, seq_app, fmap_app, <- Hi1. by apply sublist_app.
Qed.

Lemma in_order_published st st' :
  ids_published rt st -> in_order rt st st' -> ids_published rt st'.
Proof.
  unfold ids_published, drawn_ids. intros Hst (new & k & Ht & Hi & Hm).
  rewrite Ht, minted_ids_app, Hi, seq_app, fmap_app. by apply sublist_app.
Qed.

Lemma in_order_emit_plain st (a : Action) :
  minted a = [] -> in_order rt st (set_trace (trace st ++ [a]) st).
Proof.
  intros Ha. exists [a], 0%nat. split_and!; [done|cbn; lia|].
  unfold minted_ids. cbn. by rewrite Ha.
Qed.

Lemma in_order_handle_line sid line st :
  in_order rt st (exec (handle_line rt sid line) st).
Proof.
  unfold exec.
  destruct (handle_line_outcomes sid line st)
    as [->|[(chunk & ->)|[->|(m & (Hid & _) & ->)]]]; cbn [snd].
  - apply in_order_refl.
  - by apply in_order_emit_plain.
  - eapply (in_order_intro _ _ [_] 1); [done|cbn; lia|apply sublist_nil_l].
  - exists [Emit (message_received m)], 1%nat. split_and!; [done|cbn; lia|].
    unfold minted_ids. cbn. by rewrite Hid.
Qed.

Lemma in_order_rebase base st st' :
  in_order rt st st' -> in_order rt (rebase base st) (rebase base st').
Proof. intros (new & k & ? & ? & ?). by exists new, k. Qed.

Lemma in_order_for_each_lines sid lines st :
  in_order rt st (exec (for_each lines (handle_line rt sid)) st).
Proof.
  revert st. induction lines as [|l lines IH]; intros st.
  - apply in_order_refl.
  - rewrite exec_for_each_cons. eapply in_order_trans; [|apply IH].
    apply in_order_handle_line.
Qed.

Lemma in_order_stopSession st sid : in_order rt st (exec (stopSession sid) st).
Proof.
  unfold exec. destruct (Map_get (processes st) sid) as [r|] eqn:Hget.
  - rewrite (stopSession_registered _ _ _ Hget). cbn.
    eexists _, 0%nat. split_and!; [done|cbn; lia|].
    by destruct (attached st r).
  - rewrite stopSession_unknown by done. apply in_order_refl.
Qed.

Lemma in_order_for_each {A} (l : list A) (body : A -> M unit) st :
  (forall a s, in_order rt s (exec (body a) s)) ->
  in_order rt st (exec (for_each l body) st).
Proof.
  intros Hbody. revert st. induction l as [|a l IH]; intros st.
  - apply in_order_refl.
  - rewrite exec_for_each_cons. eapply in_order_trans; [apply Hbody|apply IH].
Qed.

Lemma in_order_pty_data st pid data :
  refs_ok st -> in_order rt st (exec (pty_data rt pid data) st).
Proof.
  intros Hok. destruct (ptys st !! pid) as [p|] eqn:Hp.
  - destruct (pty_info_allocated _ _ _ Hok Hp) as [i Hi].
    unfold exec at 1. rewrite (pty_data_spec _ _ _ _ _ Hp).
    fold (exec (onData rt (pty_sessionId p) (pty_info p) data) st).
    rewrite (onData_spec _ _ _ _ _ _ Hi).
    eapply in_order_trans; [|apply in_order_for_each_lines].
    exists [], 0%nat. cbn. rewrite app_nil_r. split_and!; [done|lia|done].
  - unfold exec, pty_data, bind. rewrite Hp. apply in_order_refl.
Qed.

Lemma in_order_pty_exit st pid code :
  refs_ok st -> in_order rt st (exec (pty_exit_with rt pid code) st).
Proof.
  intros Hok. destruct (ptys st !! pid) as [p|] eqn:Hp.
  - destruct (pty_info_allocated _ _ _ Hok Hp) as [i Hi].
    rewrite (pty_exit_spec _ _ _ _ _ _ Hp Hi). cbn zeta.
    eapply in_order_trans; [apply (in_order_handle_line (pty_sessionId p) (buffer i))|].
    eexists [_; _], 1%nat. cbn. split_and!; [done|lia|done].
  - unfold exec, pty_exit_with, bind. rewrite Hp. apply in_order_refl.
Qed.

Lemma in_order_step st input :
  refs_ok st -> in_order rt st (exec (step rt input) st).
Proof.
  intros Hok.
  destruct input as [w p|sid msg outcome|sid| |pid data|pid code]; cbn [step].
  - rewrite exec_bind. unfold exec. cbn.
    eexists [_], 1%nat. cbn. split_and!; [done|lia|done].
  - rewrite exec_bind. unfold exec.
    destruct (Map_get (processes st) sid) as [r|] eqn:Hget.
    + destruct (registered_info _ _ _ Hok Hget) as [i Hi].
      destruct outcome as [|thrown].
      * rewrite (sendMessage_spawned _ _ _ _ _ _ Hget Hi). cbn.
        eexists _, 1%nat. cbn. split_and!; [done|lia|done].
      * rewrite (sendMessage_spawn_throws _ _ _ _ _ _ _ Hget Hi). cbn.
        eexists _, 2%nat. cbn. split_and!; [done|lia|done].
    + rewrite sendMessage_unknown by done. apply in_order_refl.
  - apply in_order_stopSession.
  - change (exec cleanup st)
      with (exec (for_each (Map_keys (processes st)) stopSession) st).
    apply in_order_for_each. intros a s. apply in_order_stopSession.
  - by apply in_order_pty_data.
  - by apply in_order_pty_exit.
Qed.

(** *** Objects are not shared between entries *)

Lemma Map_set_values_elem {V} (m : list (jsstring * V)) k v x :
  x ∈ Map_values (Map_set k v m) -> x ∈ Map_values m \/ x = v.
Proof.
  unfold Map_values.
  intros (e & -> & [He| ->]%Map_set_elem_of)%list_elem_of_fmap.
  - left. by apply list_elem_of_fmap_2.
  - by right.
Qed.

Lemma NoDup_Map_set_values {V} (m : list (jsstring * V)) k v :
  v ∉ Map_values m -> NoDup (Map_values m) ->
  NoDup (Map_values (Map_set k v m)).
Proof.
  unfold Map_values. induction m as [|[k' v'] m IH]; cbn.
  - intros _ _. apply NoDup_singleton.
  - intros [Hv Hm]%not_elem_of_cons [Hv' Hnd]%list.NoDup_cons.
    case_bool_decide; cbn.
    + by apply list.NoDup_cons.
    + apply list.NoDup_cons. split; [|by apply IH].
      intros [?|?]%(Map_set_values_elem m k v); [done|congruence].
Qed.

Lemma NoDup_Map_delete_values {V} (m : list (jsstring * V)) k :
  NoDup (Map_values m) -> NoDup (Map_values (Map_delete k m)).
Proof.
  unfold Map_values, Map_delete. induction m as [|[k' v'] m IH]; cbn; [done|].
  intros [Hk' Hm]%list.NoDup_cons. case_bool_decide; cbn; [by apply IH|].
  apply list.NoDup_cons. split; [|by apply IH].
  intros (e & He1 & He2)%list_elem_of_fmap.
  apply (Map_delete_elem_of m k e) in He2 as [_ He2].
  apply Hk'. rewrite He1. by apply list_elem_of_fmap_2.
Qed.

Lemma refs_distinct_stopSession st sid :
  refs_distinct st -> refs_distinct (exec (stopSession sid) st).
Proof.
  unfold refs_distinct. intros Hd.
  destruct (Map_get (processes st) sid) as [r|] eqn:Hget; unfold exec.
  - rewrite (stopSession_registered _ _ _ Hget). cbn.
    by apply NoDup_Map_delete_values.
  - by rewrite stopSession_unknown.
Qed.

Lemma processes_unchanged st input :
  refs_ok st ->
  match input with
  | Start _ _ | Stop _ | Cleanup => True
  | _ => processes (exec (step rt input) st) = processes st
  end.
Proof.
  intros Hok.
  destruct input as [w p|sid msg outcome|sid| |pid data|pid code]; try done;
    cbn [step].
  - rewrite exec_bind. unfold exec.
    destruct (Map_get (processes st) sid) as [r|] eqn:Hget.
    + destruct (registered_info _ _ _ Hok Hget) as [i Hi].
      destruct outcome as [|thrown].
      * by rewrite (sendMessage_spawned _ _ _ _ _ _ Hget Hi).
      * by rewrite (sendMessage_spawn_throws _ _ _ _ _ _ _ Hget Hi).
    + by rewrite sendMessage_unknown.
  - destruct (ptys st !! pid) as [q|] eqn:Hq.
    + destruct (pty_info_allocated _ _ _ Hok Hq) as [i Hi].
      unfold exec at 1. rewrite (pty_data_spec _ _ _ _ _ Hq).
      by destruct (onData_keeps rt st (pty_sessionId q) (pty_info q) i data Hi)
        as (_ & Hpr & _).
    + unfold exec, pty_data, bind. by rewrite Hq.
  - destruct (ptys st !! pid) as [q|] eqn:Hq.
    + destruct (pty_info_allocated _ _ _ Hok Hq) as [i Hi].
      by rewrite (pty_exit_spec _ _ _ _ _ _ Hq Hi).
    + unfold exec, pty_exit_with, bind. by rewrite Hq.
Qed.

Lemma refs_distinct_step st input :
  refs_ok st -> refs_distinct st -> refs_distinct (exec (step rt input) st).
Proof.
  intros Hok Hd. pose proof (processes_unchanged st input Hok) as Hsame.
  destruct input as [w p|sid msg outcome|sid| |pid data|pid code];
    try (unfold refs_distinct; by rewrite Hsame).
  - cbn [step]. rewrite exec_bind. unfold refs_distinct, exec. cbn.
    apply NoDup_Map_set_values; [|done].
    unfold Map_values. intros (e & He1 & He2)%list_elem_of_fmap.
    pose proof (refs_ok_processes _ _ Hok He2). lia.
  - by apply refs_distinct_stopSession.
  - cbn [step].
    change (exec cleanup st)
      with (exec (for_each (Map_keys (processes st)) stopSession) st).
    generalize (Map_keys (processes st)). intros keys. revert st Hok Hd Hsame.
    induction keys as [|k keys IH]; intros st Hok Hd _; [done|].
    rewrite exec_for_each_cons. apply IH; [|by apply refs_distinct_stopSession|done].
    by apply refs_ok_stopSession.
Qed.

(** *** Buffers hold no line feed *)

Lemma elem_of_insert_inv {A} (l : list A) (i : nat) (x y : A) :
  y ∈ <[i := x]> l -> y = x \/ y ∈ l.
Proof.
  rewrite list_insert_alter. intros [?|(z & _ & ->)]%elem_of_alter_inv; auto.
Qed.

Lemma buffers_clean_insert st st' r x :
  heap st' = <[r := x]> (heap st) -> LF ∉ buffer x ->
  buffers_clean st -> buffers_clean st'.
Proof.
  intros Hh Hx Hc i. rewrite Hh. intros [->|?]%elem_of_insert_inv; auto.
Qed.

Lemma buffers_clean_stopSession st sid :
  buffers_clean st -> buffers_clean (exec (stopSession sid) st).
Proof.
  intros Hc. destruct (Map_get (processes st) sid) as [r|] eqn:Hget; unfold exec.
  - rewrite (stopSession_registered _ _ _ Hget). intros i. cbn.
    intros [?|(j & Hj & ->)]%elem_of_alter_inv; [by apply Hc|].
    cbn. by apply Hc.
  - by rewrite stopSession_unknown.
Qed.

Lemma buffers_clean_step st input :
  refs_ok st -> buffers_clean st -> buffers_clean (exec (step rt input) st).
Proof.
  intros Hok Hc.
  destruct input as [w p|sid msg outcome|sid| |pid data|pid code]; cbn [step].
  - rewrite exec_bind. unfold exec. cbn. intros i.
    intros [?| ->%list_elem_of_singleton]%elem_of_app; [by apply Hc|].
    apply not_elem_of_nil.
  - rewrite exec_bind. unfold exec.
    destruct (Map_get (processes st) sid) as [r|] eqn:Hget.
    + destruct (registered_info _ _ _ Hok Hget) as [i Hi].
      destruct outcome as [|thrown].
      * rewrite (sendMessage_spawned _ _ _ _ _ _ Hget Hi).
        eapply buffers_clean_insert; [done| |done]. apply not_elem_of_nil.
      * rewrite (sendMessage_spawn_throws _ _ _ _ _ _ _ Hget Hi).
        eapply buffers_clean_insert; [done| |done]. cbn.
        by eapply Hc, list_elem_of_lookup_2.
    + by rewrite sendMessage_unknown.
  - by apply buffers_clean_stopSession.
  - change (exec cleanup st)
      with (exec (for_each (Map_keys (processes st)) stopSession) st).
    generalize (Map_keys (processes st)). intros keys. revert st Hok Hc.
    induction keys as [|k keys IH]; intros st Hok Hc; [done|].
    rewrite exec_for_each_cons.
    apply IH; [by apply refs_ok_stopSession|by apply buffers_clean_stopSession].
  - destruct (ptys st !! pid) as [q|] eqn:Hq.
    + destruct (pty_info_allocated _ _ _ Hok Hq) as [i Hi].
      unfold exec at 1. rewrite (pty_data_spec _ _ _ _ _ Hq).
      destruct (onData_keeps rt st (pty_sessionId q) (pty_info q) i data Hi)
        as (Hh & _ & _).
      eapply buffers_clean_insert; [exact Hh| |done]. cbn.
      apply LineParserFacts.feed_remainder_no_LF.
    + unfold exec, pty_data, bind. by rewrite Hq.
  - destruct (ptys st !! pid) as [q|] eqn:Hq.
    + destruct (pty_info_allocated _ _ _ Hok Hq) as [i Hi].
      rewrite (pty_exit_spec _ _ _ _ _ _ Hq Hi).
      eapply buffers_clean_insert; [done| |done]. cbn.
      by eapply Hc, list_elem_of_lookup_2.
    + unfold exec, pty_exit_with, bind. by rewrite Hq.
Qed.

(** *** Entries and pseudo-terminals keep their session *)

Lemma ids_match_update st st' r i x :
  ids_match st ->
  heap st !! r = Some i ->
  heap st' = <[r := x]> (heap st) ->
  s_id (session x) = s_id (session i) ->
  (forall e, e ∈ processes st' -> e ∈ processes st) ->
  (forall p, p ∈ ptys st' ->
     exists q, (q ∈ ptys st \/ (pty_sessionId q, pty_info q) ∈ processes st)
               /\ pty_info q = pty_info p /\ pty_sessionId q = pty_sessionId p) ->
  ids_match st'.
Proof.
  intros [Hpr Hpt] Hi Hh Hx Hsub Hptys.
  assert (Hlook : forall r' j, heap st' !! r' = Some j ->
            exists j0, heap st !! r' = Some j0
                       /\ s_id (session j) = s_id (session j0)).
  { intros r' j. rewrite Hh, list_lookup_insert.
    case_decide as Hd.
    - destruct Hd as [-> _]. intros [= <-]. by exists i.
    - intros Hj. by exists j. }
  split.
  - intros k r' j He Hj. destruct (Hlook _ _ Hj) as (j0 & Hj0 & ->).
    by eapply Hpr; [apply Hsub|].
  - intros p j Hp Hj. destruct (Hlook _ _ Hj) as (j0 & Hj0 & ->).
    destruct (Hptys p Hp) as (q & [Hq|Hq] & Hinfo & <-).
    + eapply Hpt; [done|]. by rewrite Hinfo.
    + eapply Hpr; [done|]. by rewrite Hinfo.
Qed.

Lemma ids_match_stopSession st sid :
  refs_ok st -> ids_match st -> ids_match (exec (stopSession sid) st).
Proof.
  intros Hok Hm. destruct (Map_get (processes st) sid) as [r|] eqn:Hget.
  - destruct (registered_info _ _ _ Hok Hget) as [i Hi].
    eapply (ids_match_update st _ r i (set_status Stopped i)); try done.
    + unfold exec. rewrite (stopSession_registered _ _ _ Hget). cbn.
      by apply alter_insert.
    + unfold exec. rewrite (stopSession_registered _ _ _ Hget). cbn.
      by intros e [_ ?]%Map_delete_elem_of.
    + unfold exec. rewrite (stopSession_registered _ _ _ Hget). cbn.
      intros p Hp. destruct (attached st r).
      * apply elem_of_alter_inv in Hp as [Hp|(q & Hq & ->)];
          [exists p|exists q]; auto.
      * exists p. auto.
  - unfold exec. by rewrite stopSession_unknown.
Qed.

Lemma ids_match_step st input :
  refs_ok st -> ids_match st -> ids_match (exec (step rt input) st).
Proof.
  intros Hok Hm.
  destruct input as [w p|sid msg outcome|sid| |pid data|pid code]; cbn [step].
  - rewrite exec_bind. unfold exec. cbn. destruct Hm as [Hpr Hpt]. split; cbn.
    + intros k r i [He|[= -> ->]]%Map_set_elem_of.
      * pose proof (refs_ok_processes _ _ Hok He) as Hlt. cbn in Hlt.
        rewrite lookup_app_l by done. by apply Hpr.
      * rewrite list_lookup_middle by done. by intros [= <-].
    + intros q i Hq. pose proof (refs_ok_ptys _ _ Hok Hq) as Hlt.
      rewrite lookup_app_l by done. by apply Hpt.
  - rewrite exec_bind. unfold exec.
    destruct (Map_get (processes st) sid) as [r|] eqn:Hget.
    + destruct (registered_info _ _ _ Hok Hget) as [i Hi].
      destruct outcome as [|thrown].
      * rewrite (sendMessage_spawned _ _ _ _ _ _ Hget Hi).
        eapply (ids_match_update st _ r i); try done.
        cbn. intros q [Hq| ->%list_elem_of_singleton]%elem_of_app.
        -- exists q. auto.
        -- eexists. split; [right|done]. cbn. by apply Map_get_elem_of.
      * rewrite (sendMessage_spawn_throws _ _ _ _ _ _ _ Hget Hi).
        eapply (ids_match_update st _ r i); try done.
        cbn. intros q Hq. exists q. auto.
    + by rewrite sendMessage_unknown.
  - by apply ids_match_stopSession.
  - change (exec cleanup st)
      with (exec (for_each (Map_keys (processes st)) stopSession) st).
    generalize (Map_keys (processes st)). intros keys. revert st Hok Hm.
    induction keys as [|k keys IH]; intros st Hok Hm; [done|].
    rewrite exec_for_each_cons.
    apply IH; [by apply refs_ok_stopSession|by apply ids_match_stopSession].
  - destruct (ptys st !! pid) as [q|] eqn:Hq.
    + destruct (pty_info_allocated _ _ _ Hok Hq) as [i Hi].
      unfold exec at 1. rewrite (pty_data_spec _ _ _ _ _ Hq).
      destruct (onData_keeps rt st (pty_sessionId q) (pty_info q) i data Hi)
        as (Hh & Hpr & Hpt).
      eapply (ids_match_update st _ _ i); try done.
      * unfold exec in Hpr. rewrite Hpr. auto.
      * unfold exec in Hpt. rewrite Hpt. intros p Hp. exists p. auto.
    + unfold exec, pty_data, bind. by rewrite Hq.
  - destruct (ptys st !! pid) as [q|] eqn:Hq.
    + destruct (pty_info_allocated _ _ _ Hok Hq) as [i Hi].
      rewrite (pty_exit_spec _ _ _ _ _ _ Hq Hi).
      eapply (ids_match_update st _ _ i); try done.
      cbn. intros p Hp. rewrite list_insert_alter in Hp.
      apply elem_of_alter_inv in Hp as [Hp|(q' & Hq' & ->)].
      * exists p. auto.
      * exists q. split; [left; by eapply list_elem_of_lookup_2|done].
    + unfold exec, pty_exit_with, bind. by rewrite Hq.
Qed.

(** *** What holds in every reachable state *)

Lemma well_formed_empty : well_formed rt empty_manager.
Proof.
  split.
  - split; apply List.Forall_nil.
  - apply NoDup_nil_2.
  - apply NoDup_nil_2.
  - by intros i ?%elem_of_nil.
  - unfold ids_published. cbn. constructor.
  - split; [by intros k r i ?%elem_of_nil|by intros p i ?%elem_of_nil].
Qed.

Lemma well_formed_step st input :
  well_formed rt st -> well_formed rt (exec (step rt input) st).
Proof.
  intros [H1 H2 H3 H4 H5 H6]. split.
  - by apply refs_ok_step.
  - by apply keys_unique_step.
  - by apply refs_distinct_step.
  - by apply buffers_clean_step.
  - eapply in_order_published; [done|]. by apply in_order_step.
  - by apply ids_match_step.
Qed.

Lemma well_formed_run inputs st :
  well_formed rt st -> well_formed rt (exec (run rt inputs) st).
Proof.
  unfold run. revert st. induction inputs as [|a l IH]; intros st Hwf; [done|].
  rewrite exec_for_each_cons. by apply IH, well_formed_step.
Qed.

Lemma reachable_is_well_formed st : reachable rt st -> well_formed rt st.
Proof. intros (inputs & ->). apply well_formed_run, well_formed_empty. Qed.

End Facts.
End LedgerFacts.

Module SessionFacts.
Import EngineFacts RunInvariants ClassifierFacts TextFacts LedgerFacts.

Section Facts.
Variable rt : Runtime.

(** *** The registry as a map *)

Lemma Map_get_set_eq {V} (m : list (jsstring * V)) k v :
  Map_get (Map_set k v m) k = Some v.
Proof.
  unfold Map_get. induction m as [|[k' v'] m IH]; cbn.
  - by rewrite bool_decide_eq_true_2.
  - case_bool_decide as Hk; cbn.
    + by rewrite bool_decide_eq_true_2.
    + by rewrite bool_decide_eq_false_2.
Qed.

Lemma Map_get_set_ne {V} (m : list (jsstring * V)) k k' v :
  k <> k' -> Map_get (Map_set k v m) k' = Map_get m k'.
Proof.
  intros Hne. unfold Map_get. induction m as [|[k0 v0] m IH]; cbn.
  - by rewrite bool_decide_eq_false_2.
  - case_bool_decide as Hk; cbn.
    + subst. by rewrite !bool_decide_eq_false_2.
    + by destruct (bool_decide (k0 = k')).
Qed.

Lemma Map_set_absent {V} (m : list (jsstring * V)) k v :
  Map_get m k = None -> Map_set k v m = m ++ [(k, v)].
Proof.
  unfold Map_get. induction m as [|[k0 v0] m IH]; cbn; [done|].
  case_bool_decide; cbn; [done|]. intros Hnone. by rewrite IH.
Qed.

Lemma Map_get_unique {V} (m : list (jsstring * V)) k v :
  NoDup (Map_keys m) -> (k, v) ∈ m -> Map_get m k = Some v.
Proof.
  unfold Map_keys, Map_get. induction m as [|[k0 v0] m IH]; cbn.
  - by intros _ ?%elem_of_nil.
  - intros [Hk0 Hm]%list.NoDup_cons [[= -> ->]|Hin]%elem_of_cons.
    + by rewrite bool_decide_eq_true_2.
    + case_bool_decide as Hk; [|by apply IH]. subst. destruct Hk0.
      by apply (list_elem_of_fmap_2 fst) in Hin.
Qed.

Lemma getSession_None st sid :
  refs_ok st -> getSession st sid = None -> Map_get (processes st) sid = None.
Proof.
  intros Hok. unfold getSession.
  destruct (Map_get (processes st) sid) as [r|] eqn:Hget; [|done].
  destruct (registered_info _ _ _ Hok Hget) as [i Hi]. cbn. by rewrite Hi.
Qed.

Lemma getSession_lookup st sid s :
  getSession st sid = Some s ->
  exists r i, Map_get (processes st) sid = Some r /\ heap st !! r = Some i
              /\ s = session i.
Proof.
  unfold getSession. destruct (Map_get (processes st) sid) as [r|]; [|done].
  cbn. destruct (heap st !! r) as [i|] eqn:Hi; [|done]. intros [= <-].
  by exists r, i.
Qed.

(** Two entries with different keys hold different objects. *)
Lemma refs_differ st sid sid' r r' :
  refs_distinct st ->
  Map_get (processes st) sid = Some r ->
  Map_get (processes st) sid' = Some r' ->
  sid <> sid' -> r <> r'.
Proof.
  unfold refs_distinct, Map_values.
  intros Hd H1%Map_get_elem_of H2%Map_get_elem_of Hne ->.
  apply list_elem_of_lookup in H1 as [a Ha], H2 as [b Hb].
  assert (a = b).
  { eapply (NoDup_lookup _ a b r'); [exact Hd| |];
      rewrite list_lookup_fmap; [by rewrite Ha|by rewrite Hb]. }
  subst. congruence.
Qed.

(** A change of the object [r] is not seen through another key. *)
Lemma getSession_frame st st' sid' r x :
  refs_distinct st ->
  heap st' = <[r := x]> (heap st) ->
  (forall r', Map_get (processes st) sid' = Some r' -> r <> r') ->
  Map_get (processes st') sid' = Map_get (processes st) sid' ->
  getSession st' sid' = getSession st sid'.
Proof.
  intros _ Hh Hne Hg. unfold getSession. rewrite Hg.
  destruct (Map_get (processes st) sid') as [r'|] eqn:Hget; [|done]. cbn.
  rewrite Hh, list_lookup_insert_ne; [done|]. by apply Hne.
Qed.

Lemma omap_ext_elem {A B} (f g : A -> option B) (l : list A) :
  (forall x, x ∈ l -> f x = g x) -> omap f l = omap g l.
Proof.
  induction l as [|a l IH]; [done|]. intros H. cbn.
  rewrite (H a) by left. rewrite IH; [done|]. intros x Hx. apply H. by right.
Qed.

Lemma omap_fst_snd {K V B} (f : V -> option B) (g : K -> option B)
    (l : list (K * V)) :
  (forall e, e ∈ l -> f e.2 = g e.1) -> omap f l.*2 = omap g l.*1.
Proof.
  induction l as [|a l IH]; [done|]. intros H. cbn.
  rewrite (H a) by left. rewrite IH; [done|]. intros x Hx. apply H. by right.
Qed.

(** ** Starting a session *)

Lemma startSession_spec st w p :
  startSession rt w p st =
  (new_session_of rt st w p,
   {| heap := heap st ++ [{| process := None; session := new_session_of rt st w p;
                             buffer := [] |}];
      processes := Map_set (nanoid_nth rt (ids st)) (length (heap st))
                     (processes st);
      ptys := ptys st; ids := S (ids st); dates := S (dates st);
      trace := trace st ++ [Emit (session_created (new_session_of rt st w p))] |}).
Proof. done. Qed.

(** X1.  [startSession] returns an idle session for the given worktree,
    named by the next identifier; it publishes it, and [getSession]
    finds it under its identifier right away. *)
Theorem startSession_registers st worktreeId worktreePath :
  let s := eval (startSession rt worktreeId worktreePath) st in
  let st' := exec (startSession rt worktreeId worktreePath) st in
  s = new_session_of rt st worktreeId worktreePath
  /\ getSession st' (s_id s) = Some s
  /\ trace st' = trace st ++ [Emit (session_created s)]
  /\ ptys st' = ptys st.
Proof.
  intros s st'. unfold s, st', eval, exec. rewrite startSession_spec.
  cbn [fst snd trace ptys]. split_and!; try done.
  unfold getSession. cbn [processes heap new_session_of s_id].
  rewrite Map_get_set_eq. cbn. by rewrite list_lookup_middle.
Qed.

(** X2.  In a reachable state, starting a session changes no other
    session; when its identifier is new, [getAllSessions] lists the new
    session after the ones it listed before. *)
Theorem startSession_keeps_others st worktreeId worktreePath :
  reachable rt st ->
  let s := eval (startSession rt worktreeId worktreePath) st in
  let st' := exec (startSession rt worktreeId worktreePath) st in
  (forall sid, sid <> s_id s -> getSession st' sid = getSession st sid)
  /\ (getSession st (s_id s) = None ->
      getAllSessions st' = getAllSessions st ++ [s]).
Proof.
  intros [Hok _ _ _ _ _]%reachable_is_well_formed s st'.
  unfold s, st', eval, exec. rewrite startSession_spec.
  cbn [fst snd new_session_of s_id]. split.
  - intros sid Hne. unfold getSession. cbn [processes heap].
    rewrite Map_get_set_ne by done.
    destruct (Map_get (processes st) sid) as [r|] eqn:Hget; [|done]. cbn.
    rewrite lookup_app_l; [done|].
    by apply (refs_ok_processes st (sid, r) Hok), Map_get_elem_of.
  - intros Hnone%getSession_None; [|done].
    unfold getAllSessions, Map_values. cbn [processes heap].
    rewrite Map_set_absent by done. rewrite fmap_app, omap_app. cbn.
    rewrite list_lookup_middle by done. cbn. f_equal.
    apply omap_ext_elem. intros r Hr.
    apply list_elem_of_fmap in Hr as (e & -> & He).
    rewrite lookup_app_l; [done|]. by apply refs_ok_processes.
Qed.

(** ** Sending *)

(** X3.  A send to an identifier [getSession] does not find is rejected
    with the message of the thrown error; nothing is published, nothing
    is spawned and the state is unchanged. *)
Theorem send_to_unknown_session_is_rejected st sid msg outcome :
  reachable rt st ->
  getSession st sid = None ->
  sendMessage rt sid msg outcome st = (Rejected (lit "Session not found"), st).
Proof.
  intros [Hok _ _ _ _ _]%reachable_is_well_formed Hnone.
  apply sendMessage_unknown. by apply getSession_None.
Qed.

(** ** Lines *)

(** X4.  For one line the classifier does one of four things: nothing;
    publish one text chunk for the session; draw one identifier, drop
    it and publish the line itself as a text chunk (a tool-use line
    whose tool name cannot be converted to a string); or draw one
    identifier, read the clock once and publish one message for the
    session, whose role and type are one of Assistant/ToolUse,
    System/ToolResult, Assistant/Text and System/Error.  It never
    touches the objects, the registry or the pseudo-terminals. *)
Theorem classifier_publishes_at_most_one_event sid line st :
  processStreamEvent rt sid line st = (tt, st)
  \/ (exists chunk,
        processStreamEvent rt sid line st
        = (tt, set_trace (trace st ++ [Emit (message_stream sid chunk Text)]) st))
  \/ processStreamEvent rt sid line st = (tt, streamed_after_draw sid line st)
  \/ (exists m, classified rt st sid m
                /\ processStreamEvent rt sid line st = (tt, published m st)).
Proof. apply processStreamEvent_outcomes. Qed.

(** X5.  A line of white space only is dropped without any event. *)
Theorem blank_line_is_silent sid line st :
  all_spaces line = true -> handle_line rt sid line st = (tt, st).
Proof.
  intros H. unfold handle_line, clean. by rewrite trim_all_spaces.
Qed.

(** X6.  A line made only of colour sequences ESC [ params m, with
    white space before and after them, is dropped without any event. *)
Theorem colour_only_line_is_silent sid ws1 paramss ws2 st :
  all_spaces ws1 = true -> all_spaces ws2 = true ->
  forallb all_params paramss = true ->
  handle_line rt sid (ws1 ++ concat (sgr <$> paramss) ++ ws2) st = (tt, st).
Proof.
  intros H1 H2 Hp. unfold handle_line. by rewrite clean_colour_only.
Qed.

(** ** Output of a subprocess *)

Lemma pty_data_unknown st pid chunks :
  ptys st !! pid = None -> exec (for_each chunks (pty_data rt pid)) st = st.
Proof.
  intros Hp. induction chunks as [|d chunks IH]; [done|].
  rewrite exec_for_each_cons.
  assert (exec (pty_data rt pid d) st = st) as ->; [|done].
  unfold exec, pty_data, bind. by rewrite Hp.
Qed.

(** X7.  In a reachable state, the way the output of a subprocess is
    cut into chunks is invisible: delivering the chunks one by one
    leaves the manager, its trace included, as delivering their
    concatenation at once does. *)
Theorem chunking_is_invisible st pid chunks :
  reachable rt st ->
  exec (for_each chunks (pty_data rt pid)) st
  = exec (pty_data rt pid (concat chunks)) st.
Proof.
  intros [Hok _ _ Hclean _ _]%reachable_is_well_formed.
  destruct (ptys st !! pid) as [p|] eqn:Hp.
  - destruct (pty_info_allocated _ _ _ Hok Hp) as [i Hi].
    rewrite (pty_data_chunks _ _ _ _ _ _ Hp Hi).
    rewrite (onData_chunks _ _ _ _ _ _ Hi).
    + unfold exec. by rewrite (pty_data_spec _ _ _ _ _ Hp).
    + by eapply Hclean, list_elem_of_lookup_2.
  - rewrite pty_data_unknown by done.
    unfold exec, pty_data, bind. by rewrite Hp.
Qed.

(** X9.  No line handed to the classifier contains a line feed, and
    in every reachable state no buffer contains one: a buffer holds at
    most one incomplete line. *)
Theorem lines_and_buffers_hold_no_line_feed :
  (forall buffer data line, line ∈ (feed buffer data).1 -> LF ∉ line)
  /\ (forall st i, reachable rt st -> i ∈ heap st -> LF ∉ buffer i).
Proof.
  split.
  - apply feed_lines_no_LF.
  - intros st i [_ _ _ Hclean _ _]%reachable_is_well_formed. apply Hclean.
Qed.

(** ** Exit of a subprocess *)


(** ** Stopping *)

(** X14.  The callbacks of a subprocess outlive the session: when a
    session is stopped and its subprocess then exits, the exit is still
    handled.  After the kill and the stop event, the exit publishes the
    removed session with status Idle or Error, which replaces Stopped in
    the object, and a completion marker; [getSession] still finds
    nothing. *)
Theorem exit_after_stop_is_still_published st sid r i pid p exitCode :
  Map_get (processes st) sid = Some r ->
  heap st !! r = Some i ->
  process i = Some pid ->
  ptys st !! pid = Some p ->
  pty_info p = r ->
  pty_sessionId p = sid ->
  let st' := exec (run rt [Stop sid; Exit pid exitCode]) st in
  getSession st' sid = None
  /\ (s_status ∘ session) <$> heap st' !! r = Some (exit_status exitCode)
  /\ exists flushed id,
       (length flushed <= 1)%nat
       /\ trace st' = trace st
            ++ [PtyKill pid; Emit (session_stopped sid)]
            ++ flushed
            ++ [Emit (session_updated
                        (with_status (exit_status exitCode) (session i)));
                Emit (message_complete sid id)].
Proof.
  intros Hget Hi Hpid Hp Hr Hsid st'. unfold st', run.
  rewrite exec_for_each_cons, exec_for_each_cons. cbn [for_each step].
  change (exec (ret ()) ?s) with s.
  pose proof (lookup_lt_Some _ _ _ Hi) as Hlt.
  pose proof (lookup_lt_Some _ _ _ Hp) as Hlt'.
  pose proof (stopSession_known st sid r i Hget Hi) as Hstop.
  rewrite Hpid in Hstop.
  set (st1 := exec (stopSession sid) st).
  assert (Hheap1 : heap st1 = <[r := set_status Stopped i]> (heap st))
    by (unfold st1, exec; by rewrite Hstop).
  assert (Hptys1 : ptys st1 = alter mark_killed pid (ptys st))
    by (unfold st1, exec; by rewrite Hstop).
  assert (Hprocs1 : processes st1 = Map_delete sid (processes st))
    by (unfold st1, exec; by rewrite Hstop).
  assert (Htrace1 : trace st1
            = trace st ++ [PtyKill pid] ++ [Emit (session_stopped sid)])
    by (unfold st1, exec; by rewrite Hstop).
  assert (Hp1 : ptys st1 !! pid = Some (mark_killed p))
    by (by rewrite Hptys1, list_lookup_alter_eq, Hp).
  assert (Hi1 : heap st1 !! pty_info (mark_killed p) = Some (set_status Stopped i))
    by (cbn; rewrite Hr, Hheap1; by apply list_lookup_insert_eq).
  rewrite (pty_exit_spec _ _ _ _ _ _ Hp1 Hi1). cbn zeta.
  cbn [heap processes trace pty_info pty_sessionId mark_killed buffer set_status
       session].
  rewrite Hr, Hsid, Hheap1, Hprocs1, list_insert_insert_eq.
  split_and!.
  - apply getSession_unregistered. cbn. apply Map_get_delete_eq.
  - by rewrite list_lookup_insert_eq.
  - unfold exec.
    destruct (handle_line_outcomes rt sid (buffer i) st1)
      as [Hh|[(chunk & Hh)|[Hh|(m & _ & Hh)]]]; rewrite Hh;
      cbn [snd trace set_trace published streamed_after_draw ids];
      rewrite Htrace1.
    + exists [], (nanoid_nth rt (ids st1)). split; [cbn; lia|].
      by rewrite <- !app_assoc.
    + eexists [_], _. split; [cbn; lia|]. by rewrite <- !app_assoc.
    + eexists [_], _. split; [cbn; lia|]. by rewrite <- !app_assoc.
    + eexists [_], _. split; [cbn; lia|]. by rewrite <- !app_assoc.
Qed.

(** X15.  Stopping is idempotent: a second stop of the same identifier
    changes nothing and publishes nothing. *)
Theorem stop_twice_is_stop_once st sid :
  stopSession sid (exec (stopSession sid) st) = (tt, exec (stopSession sid) st).
Proof.
  apply stopSession_unknown.
  destruct (Map_get (processes st) sid) as [r|] eqn:Hget; unfold exec.
  - rewrite (stopSession_registered _ _ _ Hget). cbn. apply Map_get_delete_eq.
  - by rewrite stopSession_unknown.
Qed.

(** X28.  Once a session is stopped, a send to its identifier is
    rejected with Session not found, whatever the state was before the
    stop: nothing is published and nothing is spawned. *)
Theorem send_after_stop_is_rejected st sid msg outcome :
  let st' := exec (stopSession sid) st in
  sendMessage rt sid msg outcome st' = (Rejected (lit "Session not found"), st').
Proof.
  intros st'. apply sendMessage_unknown. unfold st'.
  destruct (Map_get (processes st) sid) as [r|] eqn:Hget; unfold exec.
  - rewrite (stopSession_registered _ _ _ Hget). cbn. apply Map_get_delete_eq.
  - by rewrite stopSession_unknown.
Qed.

(** X16.  In a reachable state, stopping one session changes what
    [getSession] returns for no other identifier. *)
Theorem stop_keeps_other_sessions st sid sid' :
  reachable rt st ->
  sid <> sid' ->
  getSession (exec (stopSession sid) st) sid' = getSession st sid'.
Proof.
  intros [Hok _ Hd _ _ _]%reachable_is_well_formed Hne.
  destruct (Map_get (processes st) sid) as [r|] eqn:Hget; unfold exec.
  - destruct (registered_info _ _ _ Hok Hget) as [i Hi].
    rewrite (stopSession_known _ _ _ _ Hget Hi). cbn [snd].
    eapply getSession_frame; [done|done| |].
    + intros r' Hget'. by eapply refs_differ.
    + cbn. by apply Map_get_delete_ne.
  - by rewrite stopSession_unknown.
Qed.

(** X17.  In a reachable state, a send to one session, whether its spawn
    succeeds or throws, changes what [getSession] returns for no other
    identifier. *)
Theorem send_keeps_other_sessions st sid sid' msg outcome :
  reachable rt st ->
  sid <> sid' ->
  getSession (exec (sendMessage rt sid msg outcome) st) sid'
  = getSession st sid'.
Proof.
  intros [Hok _ Hd _ _ _]%reachable_is_well_formed Hne.
  destruct (Map_get (processes st) sid) as [r|] eqn:Hget; unfold exec.
  - destruct (registered_info _ _ _ Hok Hget) as [i Hi].
    destruct outcome as [|thrown].
    + rewrite (sendMessage_spawned _ _ _ _ _ _ Hget Hi). cbn [snd].
      eapply getSession_frame; [done|done| |done].
      intros r' Hget'. by eapply refs_differ.
    + rewrite (sendMessage_spawn_throws _ _ _ _ _ _ _ Hget Hi). cbn [snd].
      eapply getSession_frame; [done|done| |done].
      intros r' Hget'. by eapply refs_differ.
  - by rewrite sendMessage_unknown.
Qed.

(** ** Reading the registry *)

(** X18.  In a reachable state, the session [getSession] returns for an
    identifier carries that identifier. *)
Theorem getSession_returns_the_session_asked_for st sid s :
  reachable rt st ->
  getSession st sid = Some s ->
  s_id s = sid.
Proof.
  intros [_ _ _ _ _ [Hm _]]%reachable_is_well_formed
         (r & i & Hget & Hi & ->)%getSession_lookup.
  eapply Hm; [|done]. by apply Map_get_elem_of.
Qed.

(** X21.  In a reachable state, [getAllSessions] lists, in insertion
    order, exactly the sessions [getSession] finds for the registered
    identifiers, one for each of them. *)
Theorem getAllSessions_lists_the_registry st :
  reachable rt st ->
  getAllSessions st = omap (getSession st) (Map_keys (processes st))
  /\ length (getAllSessions st) = length (processes st).
Proof.
  intros [Hok Hk _ _ _ _]%reachable_is_well_formed.
  unfold getAllSessions, Map_values, Map_keys. split.
  - apply omap_fst_snd. intros [k r] He. cbn.
    unfold getSession. by rewrite (Map_get_unique _ _ _ Hk He).
  - assert (Hall : forall e, e ∈ processes st -> (e.2 < length (heap st))%nat)
      by (intros e; by apply refs_ok_processes).
    clear Hk Hok. induction (processes st) as [|e l IH]; [done|]. cbn.
    destruct (lookup_lt_is_Some_2 (heap st) e.2) as [i ->]; [apply Hall; left|].
    cbn. f_equal. apply IH. intros e' He'. apply Hall. by right.
Qed.

(** ** Sessions and their subprocesses *)

Lemma pty_touches_its_session_only st pid p sid' r' :
  ids_match st -> refs_ok st ->
  ptys st !! pid = Some p ->
  pty_sessionId p <> sid' ->
  Map_get (processes st) sid' = Some r' ->
  pty_info p <> r'.
Proof.
  intros [Hm1 Hm2] Hok Hp Hne Hget Heq.
  destruct (pty_info_allocated _ _ _ Hok Hp) as [i Hi].
  apply Hne. rewrite <- (Hm2 p i); [|by eapply list_elem_of_lookup_2|done].
  eapply Hm1; [by apply Map_get_elem_of|]. by rewrite <- Heq.
Qed.

(** X19.  In a reachable state, the output and the exit of the
    subprocess of one session change what [getSession] returns for no
    other identifier. *)
Theorem subprocess_touches_its_session_only st pid p sid' :
  reachable rt st ->
  ptys st !! pid = Some p ->
  pty_sessionId p <> sid' ->
  (forall data,
     getSession (exec (pty_data rt pid data) st) sid' = getSession st sid')
  /\ (forall exitCode,
        getSession (exec (pty_exit_with rt pid exitCode) st) sid'
        = getSession st sid').
Proof.
  intros [Hok _ Hd _ _ Hm]%reachable_is_well_formed Hp Hne.
  destruct (pty_info_allocated _ _ _ Hok Hp) as [i Hi]. split.
  - intros data. unfold exec at 1. rewrite (pty_data_spec _ _ _ _ _ Hp).
    fold (exec (onData rt (pty_sessionId p) (pty_info p) data) st).
    destruct (onData_keeps rt st (pty_sessionId p) (pty_info p) i data Hi)
      as (Hh & Hpr & _).
    eapply getSession_frame; [done|exact Hh| |by rewrite Hpr].
    intros r' Hget'. by eapply pty_touches_its_session_only.
  - intros exitCode. rewrite (pty_exit_spec _ _ _ _ _ _ Hp Hi).
    eapply getSession_frame; [done|done| |done].
    intros r' Hget'. by eapply pty_touches_its_session_only.
Qed.

(** X22.  Two subprocesses spawned for the same session share its
    buffer: in a reachable state, output of the one followed by output
    of the other is handled as if one subprocess had printed both
    pieces in a row. *)
Theorem subprocesses_of_a_session_share_the_buffer st pid1 pid2 p1 p2 d1 d2 :
  reachable rt st ->
  ptys st !! pid1 = Some p1 ->
  ptys st !! pid2 = Some p2 ->
  pty_info p1 = pty_info p2 ->
  exec (run rt [Data pid1 d1; Data pid2 d2]) st
  = exec (run rt [Data pid1 (d1 ++ d2)]) st.
Proof.
  intros [Hok _ _ _ _ [_ Hm]]%reachable_is_well_formed Hp1 Hp2 Hinfo.
  destruct (pty_info_allocated _ _ _ Hok Hp1) as [i Hi].
  assert (Hsid : pty_sessionId p1 = pty_sessionId p2).
  { rewrite <- (Hm p1 i), <- (Hm p2 i); [done| | | |]; try done;
      try by eapply list_elem_of_lookup_2. by rewrite <- Hinfo. }
  unfold run. rewrite !exec_for_each_cons. cbn [for_each].
  change (exec (ret ()) ?s) with s. cbn [step].
  destruct (onData_keeps rt st (pty_sessionId p1) (pty_info p1) i d1 Hi)
    as (_ & _ & Hpt).
  unfold exec at 2 3. rewrite !(pty_data_spec _ _ _ _ _ Hp1).
  fold (exec (onData rt (pty_sessionId p1) (pty_info p1) d1) st).
  fold (exec (onData rt (pty_sessionId p1) (pty_info p1) (d1 ++ d2)) st).
  unfold exec at 1. rewrite (pty_data_spec _ _ _ p2); [|by rewrite Hpt].
  rewrite <- Hsid, <- Hinfo.
  fold (exec (onData rt (pty_sessionId p1) (pty_info p1) d2)
          (exec (onData rt (pty_sessionId p1) (pty_info p1) d1) st)).
  by eapply onData_app.
Qed.

(** ** Identifiers *)

(** X20.  In a reachable state, the identifiers handed out to the
    listeners (of created sessions, of messages, of completion markers)
    are identifiers the generator has returned, in the order it
    returned them, and no call of the generator is handed out twice; an
    identifier drawn for a tool-use message whose content cannot be
    built is never handed out.  If the generator never repeats itself,
    no two identifiers handed out are equal. *)
Theorem published_identifiers_are_the_drawn_ones st :
  reachable rt st ->
  minted_ids (trace st) `sublist_of` drawn_ids rt st
  /\ ((forall a b, nanoid_nth rt a = nanoid_nth rt b -> a = b) ->
      NoDup (minted_ids (trace st))).
Proof.
  intros [_ _ _ _ Hids _]%reachable_is_well_formed. split; [done|].
  intros Hinj. eapply sublist_NoDup; [|exact Hids]. unfold drawn_ids.
  apply NoDup_fmap_2; [intros a b; apply Hinj|apply NoDup_seq].
Qed.

End Facts.
End SessionFacts.

Module LineFacts.
Import EngineFacts JsonFacts.

Lemma parse_string_plain body rest :
  all_plain body = true ->
  parse_string_body (body ++ 34 :: rest) = Some (body, rest).
Proof.
  induction body as [|c body IH]; [done|]. cbn [all_plain forallb app parse_string_body].
  intros [[[H1 H2]%andb_true_iff H3]%andb_true_iff Hb]%andb_true_iff.
  apply negb_true_iff in H1, H2, H3. rewrite H1, H2, H3, IH by done. done.
Qed.

(** One step of the parser at an opening quote, brace and member. *)
Lemma parse_value_quote fuel body rest :
  all_plain body = true ->
  parse_value (S fuel) (34 :: body ++ 34 :: rest) = Some (JStr body, rest).
Proof.
  intros Hb.
  change (parse_value (S fuel) (34 :: body ++ 34 :: rest))
    with ('(str, after) ← parse_string_body (body ++ 34 :: rest);
          Some (JStr str, after)).
  by rewrite parse_string_plain.
Qed.

Lemma parse_value_brace fuel rest :
  parse_value (S fuel) (123 :: 34 :: rest) = parse_members fuel (34 :: rest) [].
Proof. reflexivity. Qed.

Lemma parse_member_comma fuel key v rest acc :
  all_plain key = true -> all_plain v = true ->
  parse_members (S (S fuel))
    (34 :: key ++ 34 :: 58 :: 34 :: v ++ 34 :: 44 :: rest) acc
  = parse_members (S fuel) rest ((key, JStr v) :: acc).
Proof.
  intros Hk Hv.
  change (parse_members (S (S fuel)) (34 :: ?r) acc)
    with ('(key, after_key) ← parse_string_body r;
          match skip_ws after_key with
          | colon :: after_colon =>
              if colon =? 58 then
                '(v, after) ← parse_value (S fuel) after_colon;
                match skip_ws after with
                | c' :: rest' =>
                    if c' =? 44 then
                      parse_members (S fuel) rest' ((key, v) :: acc)
                    else if c' =? 125 then
                      Some (JObj (rev ((key, v) :: acc)), rest')
                    else None
                | [] => None
                end
              else None
          | [] => None
          end).
  rewrite parse_string_plain by done.
  change (parse_value (S fuel) (34 :: v ++ 34 :: 44 :: rest) ≫=
            (fun '(v0, after) =>
               match skip_ws after with
               | c' :: rest' =>
                   if c' =? 44 then
                     parse_members (S fuel) rest' ((key, v0) :: acc)
                   else if c' =? 125 then
                     Some (JObj (rev ((key, v0) :: acc)), rest')
                   else None
               | [] => None
               end)
          = parse_members (S fuel) rest ((key, JStr v) :: acc)).
  by rewrite parse_value_quote.
Qed.

Lemma parse_member_last fuel key v rest acc :
  all_plain key = true -> all_plain v = true ->
  parse_members (S (S fuel))
    (34 :: key ++ 34 :: 58 :: 34 :: v ++ 34 :: 125 :: rest) acc
  = Some (JObj (rev ((key, JStr v) :: acc)), rest).
Proof.
  intros Hk Hv.
  change (parse_members (S (S fuel)) (34 :: ?r) acc)
    with ('(key, after_key) ← parse_string_body r;
          match skip_ws after_key with
          | colon :: after_colon =>
              if colon =? 58 then
                '(v, after) ← parse_value (S fuel) after_colon;
                match skip_ws after with
                | c' :: rest' =>
                    if c' =? 44 then
                      parse_members (S fuel) rest' ((key, v) :: acc)
                    else if c' =? 125 then
                      Some (JObj (rev ((key, v) :: acc)), rest')
                    else None
                | [] => None
                end
              else None
          | [] => None
          end).
  rewrite parse_string_plain by done.
  change (parse_value (S fuel) (34 :: v ++ 34 :: 125 :: rest) ≫=
            (fun '(v0, after) =>
               match skip_ws after with
               | c' :: rest' =>
                   if c' =? 44 then
                     parse_members (S fuel) rest' ((key, v0) :: acc)
                   else if c' =? 125 then
                     Some (JObj (rev ((key, v0) :: acc)), rest')
                   else None
               | [] => None
               end)
          = Some (JObj (rev ((key, JStr v) :: acc)), rest)).
  by rewrite parse_value_quote.
Qed.

(** [JSON_parse] of an object whose outer parse succeeds with fuel to
    spare and leaves nothing behind. *)
Lemma JSON_parse_object text members :
  (forall fuel, parse_value (5 + fuel) text = Some (JObj members, [])) ->
  JSON_parse text = Some (JObj members).
Proof.
  intros H. rewrite (JSON_parse_any_fuel text 5).
  replace (2 * length text + 2 + 5)%nat with (5 + (2 * length text + 2))%nat
    by lia.
  by rewrite H.
Qed.

Lemma all_plain_lit_type : all_plain (lit "type") = true.
Proof. by vm_compute. Qed.

Lemma parse_result_line s :
  all_plain s = true ->
  JSON_parse (result_line s)
  = Some (JObj [(lit "type", JStr (lit "result")); (lit "content", JStr s)]).
Proof.
  intros Hs. apply JSON_parse_object. intros fuel.
  change (result_line s)
    with (123 :: 34 :: lit "type" ++ 34 :: 58 :: 34 :: lit "result" ++ 34 :: 44
          :: 34 :: lit "content" ++ 34 :: 58 :: 34 :: s ++ 34 :: 125 :: []).
  change (5 + fuel)%nat with (S (S (S (S (S fuel))))).
  rewrite parse_value_brace, parse_member_comma, parse_member_last;
    done || by vm_compute.
Qed.

Lemma parse_assistant_line subtype s :
  all_plain subtype = true -> all_plain s = true ->
  JSON_parse (assistant_line subtype s)
  = Some (JObj [(lit "type", JStr (lit "assistant"));
                (lit "subtype", JStr subtype); (lit "content", JStr s)]).
Proof.
  intros Ht Hs. apply JSON_parse_object. intros fuel.
  change (assistant_line subtype s)
    with (123 :: 34 :: lit "type" ++ 34 :: 58 :: 34 :: lit "assistant" ++ 34 :: 44
          :: 34 :: lit "subtype" ++ 34 :: 58 :: 34 :: subtype ++ 34 :: 44
          :: 34 :: lit "content" ++ 34 :: 58 :: 34 :: s ++ 34 :: 125 :: []).
  change (5 + fuel)%nat with (S (S (S (S (S fuel))))).
  rewrite parse_value_brace, parse_member_comma, parse_member_comma,
    parse_member_last; done || by vm_compute.
Qed.

Lemma parse_error_line s :
  all_plain s = true ->
  JSON_parse (error_line s)
  = Some (JObj [(lit "type", JStr (lit "error")); (lit "error", JStr s)]).
Proof.
  intros Hs. apply JSON_parse_object. intros fuel.
  change (error_line s)
    with (123 :: 34 :: lit "type" ++ 34 :: 58 :: 34 :: lit "error" ++ 34 :: 44
          :: 34 :: lit "error" ++ 34 :: 58 :: 34 :: s ++ 34 :: 125 :: []).
  change (5 + fuel)%nat with (S (S (S (S (S fuel))))).
  rewrite parse_value_brace, parse_member_comma, parse_member_last;
    done || by vm_compute.
Qed.

Lemma parse_tool_result_line s :
  all_plain s = true ->
  JSON_parse (tool_result_line s)
  = Some (JObj [(lit "type", JStr (lit "tool_result"));
                (lit "result", JStr s)]).
Proof.
  intros Hs. apply JSON_parse_object. intros fuel.
  change (tool_result_line s)
    with (123 :: 34 :: lit "type" ++ 34 :: 58 :: 34 :: lit "tool_result" ++ 34
          :: 44 :: 34 :: lit "result" ++ 34 :: 58 :: 34 :: s ++ 34 :: 125 :: []).
  change (5 + fuel)%nat with (S (S (S (S (S fuel))))).
  rewrite parse_value_brace, parse_member_comma, parse_member_last;
    done || by vm_compute.
Qed.

Lemma parse_typed_line kind :
  all_plain kind = true ->
  JSON_parse (typed_line kind) = Some (JObj [(lit "type", JStr kind)]).
Proof.
  intros Hs. apply JSON_parse_object. intros fuel.
  change (typed_line kind)
    with (123 :: 34 :: lit "type" ++ 34 :: 58 :: 34 :: kind ++ 34 :: 125 :: []).
  change (5 + fuel)%nat with (S (S (S (S (S fuel))))).
  rewrite parse_value_brace, parse_member_last; done || by vm_compute.
Qed.

Section Facts.
Variable rt : Runtime.

(** X23.  A result line whose content is any text free of quotes,
    backslashes and control characters is published as one message of
    role Assistant and type Text with exactly that text as content. *)
Theorem result_line_is_published sid s st :
  all_plain s = true ->
  processStreamEvent rt sid (result_line s) st
  = (tt, published
           {| m_id := nanoid_nth rt (ids st); m_sessionId := sid;
              m_role := Assistant; m_content := JStr s;
              m_timestamp := date_nth rt (dates st); m_type := Text |} st).
Proof.
  intros Hs. unfold processStreamEvent. rewrite parse_result_line by done.
  destruct s; by vm_compute.
Qed.

(** X24.  An error line with any such text is published as one message
    of role System and type Error; its content is the text, or
    [Unknown error] when the text is empty or the line has no [error]
    member at all. *)
Theorem error_line_is_published sid s st :
  all_plain s = true ->
  let message content :=
    published
      {| m_id := nanoid_nth rt (ids st); m_sessionId := sid;
         m_role := System; m_content := JStr content;
         m_timestamp := date_nth rt (dates st); m_type := ErrorType |} st in
  processStreamEvent rt sid (error_line s) st
  = (tt, message (if nonempty s then s else lit "Unknown error"))
  /\ processStreamEvent rt sid (typed_line (lit "error")) st
     = (tt, message (lit "Unknown error")).
Proof.
  intros Hs message. unfold processStreamEvent. split.
  - rewrite parse_error_line by done. destruct s; by vm_compute.
  - rewrite parse_typed_line by done. by vm_compute.
Qed.

(** X25.  An assistant line with subtype [text] is published as one
    text chunk carrying its content; with any other subtype it is
    dropped. *)
Theorem assistant_line_is_streamed sid subtype s st :
  all_plain subtype = true -> all_plain s = true ->
  processStreamEvent rt sid (assistant_line subtype s) st
  = (tt, if bool_decide (subtype = lit "text")
         then set_trace
                (trace st ++ [Emit (message_stream sid (JStr s) Text)]) st
         else st).
Proof.
  intros Ht Hs. unfold processStreamEvent.
  rewrite parse_assistant_line by done.
  change (get_prop (JObj ?l) (lit "type")) with (Some (JStr (lit "assistant"))).
  change (is_string (Some (JStr (lit "assistant"))) (lit "assistant")) with true.
  cbv iota.
  change (get_prop (JObj ?l) (lit "subtype")) with (Some (JStr subtype)).
  change (is_string (Some (JStr subtype)) (lit "text"))
    with (bool_decide (subtype = lit "text")).
  destruct (bool_decide (subtype = lit "text")); [|done].
  destruct s; by vm_compute.
Qed.

(** X26.  A tool-result line is published as one message of role
    System and type ToolResult with its text as content. *)
Theorem tool_result_line_is_published sid s st :
  all_plain s = true ->
  processStreamEvent rt sid (tool_result_line s) st
  = (tt, published
           {| m_id := nanoid_nth rt (ids st); m_sessionId := sid;
              m_role := System; m_content := JStr s;
              m_timestamp := date_nth rt (dates st); m_type := ToolResult |} st).
Proof.
  intros Hs. unfold processStreamEvent. rewrite parse_tool_result_line by done.
  destruct s; by vm_compute.
Qed.

(** X27.  A line whose [type] is none of the five the classifier knows
    is dropped: nothing is published and nothing changes. *)
Theorem unknown_kind_is_dropped sid kind st :
  all_plain kind = true ->
  kind ∉ known_kinds ->
  processStreamEvent rt sid (typed_line kind) st = (tt, st).
Proof.
  intros Hk Hnot. unfold processStreamEvent. rewrite parse_typed_line by done.
  change (get_prop (JObj ?l) (lit "type")) with (Some (JStr kind)).
  unfold is_string. unfold known_kinds in Hnot.
  repeat (apply not_elem_of_cons in Hnot as [? Hnot]).
  by rewrite !bool_decide_eq_false_2.
Qed.

End Facts.

End LineFacts.

Module Instances.
Import EngineFacts TextFacts SessionFacts LineFacts.

(** A tool-use line whose tool name is an object with a member named
    [toString]: the conversion in the template literal throws after the
    identifier was drawn, and the line is published as a text chunk. *)
Example tool_name_conversion_throws :
  let line := dq "{'type':'tool_use','tool_name':{'toString':1},'tool_input':{}}" in
  processStreamEvent demo_runtime demo_session line demo_active
  = (tt, streamed_after_draw demo_session line demo_active).
Proof. by vm_compute. Qed.

Lemma startSession_keeps_others_witness :
  let s := eval (startSession demo_runtime (lit "bugfix") (lit "/repo-bugfix"))
             demo_active in
  let st' := exec (startSession demo_runtime (lit "bugfix") (lit "/repo-bugfix"))
               demo_active in
  (forall sid, sid <> s_id s -> getSession st' sid = getSession demo_active sid)
  /\ (getSession demo_active (s_id s) = None ->
      getAllSessions st' = getAllSessions demo_active ++ [s]).
Proof.
  apply (startSession_keeps_others demo_runtime demo_active).
  exists demo_active_inputs. by vm_compute.
Defined.

Lemma send_to_unknown_session_is_rejected_witness :
  sendMessage demo_runtime (lit "nobody") (lit "hi") Spawned demo_active
  = (Rejected (lit "Session not found"), demo_active).
Proof.
  apply (send_to_unknown_session_is_rejected demo_runtime demo_active).
  - exists demo_active_inputs. by vm_compute.
  - by vm_compute.
Defined.

Lemma blank_line_is_silent_witness :
  handle_line demo_runtime demo_session [32; 9; 13; 32] demo_active
  = (tt, demo_active).
Proof.
  apply (blank_line_is_silent demo_runtime demo_session [32; 9; 13; 32]).
  by vm_compute.
Defined.

Lemma colour_only_line_is_silent_witness :
  handle_line demo_runtime demo_session
    ([32] ++ concat (sgr <$> [lit "0"; lit "1;31"]) ++ [13]) demo_active
  = (tt, demo_active).
Proof.
  apply (colour_only_line_is_silent demo_runtime demo_session
           [32] [lit "0"; lit "1;31"] [13]); by vm_compute.
Defined.

Lemma chunking_is_invisible_witness :
  let chunks := [lit "hel"; lit "lo" ++ [LF] ++ lit "wor"; lit "ld" ++ [LF]] in
  exec (for_each chunks (pty_data demo_runtime 0)) demo_active
  = exec (pty_data demo_runtime 0 (concat chunks)) demo_active.
Proof.
  apply (chunking_is_invisible demo_runtime demo_active 0%nat).
  exists demo_active_inputs. by vm_compute.
Defined.

Lemma lines_and_buffers_hold_no_line_feed_witness :
  (LF ∉ lit "ab") /\ (LF ∉ buffer demo_active_info).
Proof.
  split.
  - apply (proj1 (lines_and_buffers_hold_no_line_feed demo_runtime)
             [] (lit "ab" ++ [LF] ++ lit "cd") (lit "ab")).
    vm_compute. left.
  - apply (proj2 (lines_and_buffers_hold_no_line_feed demo_runtime)
             demo_active demo_active_info).
    + exists demo_active_inputs. by vm_compute.
    + vm_compute. left.
Defined.

Lemma colour_sequence_is_removed_witness :
  strip_ansi (lit "ok " ++ sgr (lit "1;32") ++ lit "done")
  = lit "ok " ++ strip_ansi (lit "done").
Proof.
  apply (colour_sequence_is_removed (lit "ok ") (lit "1;32") (lit "done"));
    by vm_compute.
Defined.

Lemma clean_without_escape_is_trim_witness :
  clean (lit "  plain text ") = trim (lit "  plain text ").
Proof.
  apply (clean_without_escape_is_trim (lit "  plain text ")). by vm_compute.
Defined.


Lemma exit_after_stop_is_still_published_witness :
  let st' := exec (run demo_runtime [Stop demo_session; Exit 0%nat 0%Z])
               demo_active in
  getSession st' demo_session = None
  /\ (s_status ∘ session) <$> heap st' !! 0%nat = Some (exit_status 0)
  /\ exists flushed id,
       (length flushed <= 1)%nat
       /\ trace st' = trace demo_active
            ++ [PtyKill 0; Emit (session_stopped demo_session)]
            ++ flushed
            ++ [Emit (session_updated
                        (with_status (exit_status 0) (session demo_active_info)));
                Emit (message_complete demo_session id)].
Proof.
  apply (exit_after_stop_is_still_published demo_runtime demo_active
           demo_session 0%nat demo_active_info 0%nat demo_pty 0%Z);
    by vm_compute.
Defined.

Lemma stop_keeps_other_sessions_witness :
  getSession (exec (stopSession demo_session) demo_two_sessions)
    demo_second_session
  = getSession demo_two_sessions demo_second_session.
Proof.
  apply (stop_keeps_other_sessions demo_runtime demo_two_sessions
           demo_session demo_second_session).
  - exists demo_two_sessions_inputs. by vm_compute.
  - by vm_compute.
Defined.

Lemma send_keeps_other_sessions_witness :
  getSession
    (exec (sendMessage demo_runtime demo_second_session (lit "hi") Spawned)
       demo_two_sessions) demo_session
  = getSession demo_two_sessions demo_session.
Proof.
  apply (send_keeps_other_sessions demo_runtime demo_two_sessions
           demo_second_session demo_session).
  - exists demo_two_sessions_inputs. by vm_compute.
  - by vm_compute.
Defined.

Lemma getSession_returns_the_session_asked_for_witness :
  s_id (session demo_active_info) = demo_session.
Proof.
  apply (getSession_returns_the_session_asked_for demo_runtime demo_active
           demo_session (session demo_active_info)).
  - exists demo_active_inputs. by vm_compute.
  - by vm_compute.
Defined.

Lemma getAllSessions_lists_the_registry_witness :
  getAllSessions demo_two_sessions
  = omap (getSession demo_two_sessions) (Map_keys (processes demo_two_sessions))
  /\ length (getAllSessions demo_two_sessions)
     = length (processes demo_two_sessions).
Proof.
  apply (getAllSessions_lists_the_registry demo_runtime demo_two_sessions).
  exists demo_two_sessions_inputs. by vm_compute.
Defined.

Lemma subprocess_touches_its_session_only_witness :
  (forall data,
     getSession (exec (pty_data demo_runtime 0 data) demo_two_sessions)
       demo_second_session
     = getSession demo_two_sessions demo_second_session)
  /\ (forall exitCode,
        getSession (exec (pty_exit_with demo_runtime 0 exitCode)
                      demo_two_sessions) demo_second_session
        = getSession demo_two_sessions demo_second_session).
Proof.
  apply (subprocess_touches_its_session_only demo_runtime demo_two_sessions
           0%nat demo_pty demo_second_session).
  - exists demo_two_sessions_inputs. by vm_compute.
  - by vm_compute.
  - by vm_compute.
Defined.

Lemma subprocesses_of_a_session_share_the_buffer_witness :
  exec (run demo_runtime [Data 0 (lit "ab"); Data 1 (lit "c" ++ [LF])])
    demo_double_send
  = exec (run demo_runtime [Data 0 (lit "ab" ++ (lit "c" ++ [LF]))])
      demo_double_send.
Proof.
  apply (subprocesses_of_a_session_share_the_buffer demo_runtime
           demo_double_send 0%nat 1%nat demo_pty demo_pty).
  - exists demo_double_send_inputs. by vm_compute.
  - by vm_compute.
  - by vm_compute.
  - by vm_compute.
Defined.

Lemma published_identifiers_are_the_drawn_ones_witness :
  minted_ids (trace demo_two_sessions)
    `sublist_of` drawn_ids demo_runtime demo_two_sessions
  /\ ((forall a b, nanoid_nth demo_runtime a = nanoid_nth demo_runtime b -> a = b)
      -> NoDup (minted_ids (trace demo_two_sessions))).
Proof.
  apply (published_identifiers_are_the_drawn_ones demo_runtime demo_two_sessions).
  exists demo_two_sessions_inputs. by vm_compute.
Defined.

Lemma result_line_is_published_witness :
  processStreamEvent demo_runtime demo_session
    (result_line (lit "The answer is 42.")) demo_active
  = (tt, published
           {| m_id := nanoid_nth demo_runtime (ids demo_active);
              m_sessionId := demo_session; m_role := Assistant;
              m_content := JStr (lit "The answer is 42.");
              m_timestamp := date_nth demo_runtime (dates demo_active);
              m_type := Text |} demo_active).
Proof.
  apply (result_line_is_published demo_runtime demo_session
           (lit "The answer is 42.") demo_active). by vm_compute.
Defined.

Lemma error_line_is_published_witness :
  let message content :=
    published
      {| m_id := nanoid_nth demo_runtime (ids demo_active);
         m_sessionId := demo_session; m_role := System;
         m_content := JStr content;
         m_timestamp := date_nth demo_runtime (dates demo_active);
         m_type := ErrorType |} demo_active in
  processStreamEvent demo_runtime demo_session (error_line (lit "rate limit"))
    demo_active
  = (tt, message (if nonempty (lit "rate limit") then lit "rate limit"
                  else lit "Unknown error"))
  /\ processStreamEvent demo_runtime demo_session (typed_line (lit "error"))
       demo_active
     = (tt, message (lit "Unknown error")).
Proof.
  apply (error_line_is_published demo_runtime demo_session (lit "rate limit")
           demo_active). by vm_compute.
Defined.

Lemma assistant_line_is_streamed_witness :
  processStreamEvent demo_runtime demo_session
    (assistant_line (lit "thinking") (lit "hmm")) demo_active
  = (tt, if bool_decide (lit "thinking" = lit "text")
         then set_trace
                (trace demo_active
                 ++ [Emit (message_stream demo_session (JStr (lit "hmm")) Text)])
                demo_active
         else demo_active).
Proof.
  apply (assistant_line_is_streamed demo_runtime demo_session (lit "thinking")
           (lit "hmm") demo_active); by vm_compute.
Defined.

Lemma tool_result_line_is_published_witness :
  processStreamEvent demo_runtime demo_session
    (tool_result_line (lit "3 files changed")) demo_active
  = (tt, published
           {| m_id := nanoid_nth demo_runtime (ids demo_active);
              m_sessionId := demo_session; m_role := System;
              m_content := JStr (lit "3 files changed");
              m_timestamp := date_nth demo_runtime (dates demo_active);
              m_type := ToolResult |} demo_active).
Proof.
  apply (tool_result_line_is_published demo_runtime demo_session
           (lit "3 files changed") demo_active). by vm_compute.
Defined.

Lemma unknown_kind_is_dropped_witness :
  processStreamEvent demo_runtime demo_session (typed_line (lit "system"))
    demo_active
  = (tt, demo_active).
Proof.
  apply (unknown_kind_is_dropped demo_runtime demo_session (lit "system")
           demo_active).
  - by vm_compute.
  - vm_compute. intros H. repeat (inversion H as [|? ? ? H']; clear H; rename H' into H).
Defined.

End Instances.
